(** * Rekhta (ToyLang): tokenizer and tree-walking interpreter

    A shallow embedding of [Tokenizer] (the ordered rule table and
    [getNextToken]) and of [Interpreter] (the [visit*] methods), followed by
    the properties of the evaluator and of the token offsets.

    Strings are [string]s whose characters stand for code units below 256.
    Numbers are IEEE 754 binary64 values ([float]), as in the host language,
    whose conversions, truthiness and equality are spelled out where the
    interpreter relies on them. The interpreter threads its state (the store
    of environments and the current environment) through a monad of
    computations that end normally or by a throw; recursion is bounded by
    fuel, and a completed evaluation is the same for any larger fuel. *)

From Stdlib Require Import ZArith List String Ascii Bool Lia Floats DecimalString Sorted.
From stdpp Require Import base option gmap strings.

Open Scope string_scope.

#[local] Set Warnings "-register-all".

(** ** Strings of the host language *)

Module Str.

(** [s.slice(n)] *)
Fixpoint slice (n : nat) (s : string) : string :=
  match n, s with
  | O, _ => s
  | S n', String _ s' => slice n' s'
  | S _, EmptyString => EmptyString
  end.

(** [s.slice(0, n)] *)
Fixpoint take (n : nat) (s : string) : string :=
  match n, s with
  | S n', String c s' => String c (take n' s')
  | _, _ => EmptyString
  end.

(** [s.slice(from, to)] for [0 <= from] *)
Definition substring (from to : nat) (s : string) : string :=
  take (to - from) (slice from s).

Definition dquote : ascii := "034"%char.
Definition squote : ascii := "039"%char.
Definition newline : ascii := "010"%char.

Definition code (c : ascii) : nat := nat_of_ascii c.

Definition between (lo hi : nat) (c : ascii) : bool :=
  (lo <=? code c)%nat && (code c <=? hi)%nat.

(** [\d] *)
Definition is_digit (c : ascii) : bool := between 48 57 c.

(** [\w]: letters, digits and the underscore *)
Definition is_word (c : ascii) : bool :=
  between 65 90 c || between 97 122 c || is_digit c || (code c =? 95)%nat.

(** [\s] on code units below 256: tab, line feed, vertical tab, form feed,
    carriage return, space and the no-break space *)
Definition is_space (c : ascii) : bool :=
  between 9 13 c || (code c =? 32)%nat || (code c =? 160)%nat.

(** what [.] refuses: the line terminators *)
Definition is_line_terminator (c : ascii) : bool :=
  (code c =? 10)%nat || (code c =? 13)%nat.

End Str.

(** ** Tokenizer *)

Module Tokenizer.

Inductive TokenTypes : Set :=
| let_ | if_ | else_ | while_ | do_ | for_ | true_ | false_ | null_ | def_
| return_ | class_ | new_ | this_ | super_ | extends_
| SEMI | CURLY_END | CURLY_START | PAREN_START | PAREN_END | COMMA | DOT
| BRACKET_END | BRACKET_START | STRING | NUMBER | IDENTIFIER
| EQUALITY_OPERATOR | SIMPLE_ASSIGNMENT | COMPLEX_ASSIGNMENT
| ADDITITIVE_OPERATOR | MULTIPLICATIVE_OPERATOR | RELATIONAL_OPERATOR
| LOGICAL_AND | LOGICAL_OR | LOGICAL_NOT | EOF.

(** A rule's pattern, anchored at the start of the remaining text: the length
    of what [regex.exec] matches there, or [None]. *)
Definition pattern := string -> option nat.

(** Length of the longest prefix whose characters all satisfy [p]. *)
Fixpoint span (p : ascii -> bool) (s : string) : nat :=
  match s with
  | String c s' => if p c then S (span p s') else O
  | EmptyString => O
  end.

(** [^[p]+] *)
Definition many1 (p : ascii -> bool) : pattern := fun s =>
  match span p s with
  | O => None
  | n => Some n
  end.

(** [^lit] for a literal text *)
Definition lit (l : string) : pattern := fun s =>
  if String.prefix l s then Some (String.length l) else None.

(** [^\bkw\b]: the keyword, not followed by a word character. The leading
    [\b] holds at the start of the slice as soon as the keyword starts with a
    word character. *)
Definition keyword (kw : string) : pattern := fun s =>
  if String.prefix kw s then
    match Str.slice (String.length kw) s with
    | String c _ => if Str.is_word c then None else Some (String.length kw)
    | EmptyString => Some (String.length kw)
    end
  else None.

(** [^[set]]: one character of a set *)
Definition one_of (set : string) : pattern := fun s =>
  match s with
  | String c _ => if existsb (Ascii.eqb c) (list_ascii_of_string set) then Some 1%nat else None
  | EmptyString => None
  end.

(** [^[set]=] *)
Definition one_of_then_eq (set : string) : pattern := fun s =>
  match one_of set s, Str.slice 1 s with
  | Some _, String "=" _ => Some 2%nat
  | _, _ => None
  end.

(** [^[><]=?] *)
Definition relational : pattern := fun s =>
  match one_of "><" s, Str.slice 1 s with
  | Some _, String "=" _ => Some 2%nat
  | Some _, _ => Some 1%nat
  | None, _ => None
  end.

(** [^\/\/.*] *)
Definition line_comment : pattern := fun s =>
  if String.prefix "//" s
  then Some (2 + span (fun c => negb (Str.is_line_terminator c)) (Str.slice 2 s))%nat
  else None.

(** Characters up to and including the first [*/]. *)
Fixpoint until_close (s : string) : option nat :=
  match s with
  | String "*" (String "/" _) => Some 2%nat
  | String _ s' => option_map S (until_close s')
  | EmptyString => None
  end.

(** [^\/\*[\s\S]*?\*\/] *)
Definition block_comment : pattern := fun s =>
  if String.prefix "/*" s
  then option_map (Nat.add 2) (until_close (Str.slice 2 s))
  else None.

(** [^q[^q\n]*q] for a quote character [q] *)
Definition quoted (q : ascii) : pattern := fun s =>
  match s with
  | String c s' =>
      if Ascii.eqb c q then
        let n := span (fun c => negb (Ascii.eqb c q || Ascii.eqb c Str.newline)) s' in
        match Str.slice n s' with
        | String c' _ => if Ascii.eqb c' q then Some (S (S n)) else None
        | EmptyString => None
        end
      else None
  | EmptyString => None
  end.

(** The rule table, in the order the tokenizer tries it; [None] marks text
    that is skipped. *)
Definition spec : list (pattern * option TokenTypes) :=
  [ (many1 Str.is_space, None);
    (line_comment, None);
    (block_comment, None);
    (lit ";", Some SEMI);
    (lit "}", Some CURLY_END);
    (lit "{", Some CURLY_START);
    (lit "(", Some PAREN_START);
    (lit ")", Some PAREN_END);
    (lit ",", Some COMMA);
    (lit ".", Some DOT);
    (lit "]", Some BRACKET_END);
    (lit "[", Some BRACKET_START);
    (keyword "Banao", Some let_);
    (keyword "Agr", Some if_);
    (keyword "Warna", Some else_);
    (keyword "JabTak", Some while_);
    (keyword "Karo", Some do_);
    (keyword "for", Some for_);
    (keyword "Sahi", Some true_);
    (keyword "Ghalat", Some false_);
    (keyword "null", Some null_);
    (keyword "def", Some def_);
    (keyword "WapisBhejo", Some return_);
    (keyword "class", Some class_);
    (keyword "new", Some new_);
    (keyword "this", Some this_);
    (keyword "super", Some super_);
    (keyword "extends", Some extends_);
    (many1 Str.is_digit, Some NUMBER);
    (many1 Str.is_word, Some IDENTIFIER);
    (one_of_then_eq "=!", Some EQUALITY_OPERATOR);
    (lit "=", Some SIMPLE_ASSIGNMENT);
    (one_of_then_eq "*/+-", Some COMPLEX_ASSIGNMENT);
    (one_of "+-", Some ADDITITIVE_OPERATOR);
    (one_of "*/", Some MULTIPLICATIVE_OPERATOR);
    (relational, Some RELATIONAL_OPERATOR);
    (lit "&&", Some LOGICAL_AND);
    (lit "||", Some LOGICAL_OR);
    (lit "!", Some LOGICAL_NOT);
    (quoted Str.dquote, Some STRING);
    (quoted Str.squote, Some STRING) ].

Record Token : Set := mkToken {
  type : TokenTypes;
  value : string;
  start : Z;
  end_ : Z
}.

Record t : Set := mk {
  string_ : string;
  cursor : nat
}.

(** [init]: the source is normalized by a trailing line feed. *)
Definition init (source : string) : t :=
  mk (source ++ String Str.newline EmptyString) 0.

Definition hasMoreTokens (tk : t) : bool :=
  (cursor tk <? String.length (string_ tk))%nat.

Definition isEOF (tk : t) : bool :=
  (cursor tk =? String.length (string_ tk))%nat.

(** What [getNextToken] yields: [null], a token, or the syntax error it throws
    (with the flag of an unfinished string literal and the reported offsets). *)
Inductive outcome : Set :=
| Null
| Tok (tok : Token)
| SyntaxError (isStringUnfinished : bool) (loc_start loc_end : nat).

(** [regex.exec(string)]: the text matched at the start of [s], if any. *)
Definition exec (regex : pattern) (s : string) : option string :=
  option_map (fun n => Str.take n s) (regex s).

(** [_match]: the matched text, with the cursor advanced by its length. *)
Definition _match (regex : pattern) (s : string) (tk : t) : option string * t :=
  match exec regex s with
  | Some matched => (Some matched, mk (string_ tk) (cursor tk + String.length matched))
  | None => (None, tk)
  end.

(** The [for] loop of [getNextToken] over the rules, up to the first rule that
    matches: the matched text, the rule's token type and the tokenizer with
    its cursor advanced. *)
Fixpoint first_match (rules : list (pattern * option TokenTypes)) (s : string) (tk : t)
  : option (string * option TokenTypes * t) :=
  match rules with
  | [] => None
  | (regex, ty) :: rest =>
      match _match regex s tk with
      | (Some tokenValue, tk') => Some (tokenValue, ty, tk')
      | (None, _) => first_match rest s tk
      end
  end.

Definition isStringUnfinished (s : string) : bool :=
  match s with
  | String c _ => Ascii.eqb c Str.dquote || Ascii.eqb c Str.squote
  | EmptyString => false
  end.

(** [getNextToken], with the recursion on skipped text bounded by [fuel];
    [None] only when the fuel runs out. [_match] advances the cursor before the
    token is built, so [start] and [end] are computed from the cursor after the
    match. *)
Fixpoint getNextToken_fuel (fuel : nat) (tk : t) : option (outcome * t) :=
  match fuel with
  | O => None
  | S fuel' =>
      if negb (hasMoreTokens tk) || isEOF tk then Some (Null, tk)
      else
        let s := Str.slice (cursor tk) (string_ tk) in
        match first_match spec s tk with
        | Some (_, None, tk') => getNextToken_fuel fuel' tk'
        | Some (tokenValue, Some ty, tk') =>
            Some (Tok {| type := ty;
                         value := tokenValue;
                         start := Z.of_nat (cursor tk') - Z.of_nat (String.length tokenValue) - 1;
                         end_ := Z.of_nat (cursor tk') |},
                  tk')
        | None =>
            Some (SyntaxError (isStringUnfinished s) (cursor tk) (cursor tk + 1), tk)
        end
  end.

(** Every skip consumes at least one character, so the remaining length (plus
    one for the final test) bounds the recursion. *)
Definition getNextToken (tk : t) : option (outcome * t) :=
  getNextToken_fuel (S (String.length (string_ tk) - cursor tk)) tk.

(** All the tokens up to the end of the text, for [n] calls at most. *)
Fixpoint tokens (n : nat) (tk : t) : list Token :=
  match n with
  | O => []
  | S n' =>
      match getNextToken tk with
      | Some (Tok tok, tk') => tok :: tokens n' tk'
      | _ => []
      end
  end.

(** A pattern matches no more than there is. *)
Definition bounded (p : pattern) : Prop :=
  forall s n, p s = Some n -> (n <= String.length s)%nat.

(** A pattern matches no empty text. *)
Definition positive (p : pattern) : Prop :=
  forall s n, p s = Some n -> (1 <= n)%nat.

(** The spellings of the keywords, in the order of the rule table. *)
Definition reserved : list string :=
  [ "Banao"; "Agr"; "Warna"; "JabTak"; "Karo"; "for"; "Sahi"; "Ghalat"; "null"; "def";
    "WapisBhejo"; "class"; "new"; "this"; "super"; "extends" ].

(** The texts that the rules of a token type match, for the types whose
    rules match fixed texts; identifiers, numbers and strings have none, and
    no rule gives [EOF]. *)
Definition spellings (ty : TokenTypes) : list string :=
  match ty with
  | let_ => ["Banao"] | if_ => ["Agr"] | else_ => ["Warna"] | while_ => ["JabTak"]
  | do_ => ["Karo"] | for_ => ["for"] | true_ => ["Sahi"] | false_ => ["Ghalat"]
  | null_ => ["null"] | def_ => ["def"] | return_ => ["WapisBhejo"] | class_ => ["class"]
  | new_ => ["new"] | this_ => ["this"] | super_ => ["super"] | extends_ => ["extends"]
  | SEMI => [";"] | CURLY_END => ["}"] | CURLY_START => ["{"]
  | PAREN_START => ["("] | PAREN_END => [")"] | COMMA => [","] | DOT => ["."]
  | BRACKET_END => ["]"] | BRACKET_START => ["["]
  | EQUALITY_OPERATOR => ["=="; "!="]
  | SIMPLE_ASSIGNMENT => ["="]
  | COMPLEX_ASSIGNMENT => ["*="; "/="; "+="; "-="]
  | ADDITITIVE_OPERATOR => ["+"; "-"]
  | MULTIPLICATIVE_OPERATOR => ["*"; "/"]
  | RELATIONAL_OPERATOR => [">"; "<"; ">="; "<="]
  | LOGICAL_AND => ["&&"] | LOGICAL_OR => ["||"] | LOGICAL_NOT => ["!"]
  | STRING | NUMBER | IDENTIFIER | EOF => []
  end.

(** The string each member of the enum [TokenTypes] stands for. *)
Definition TokenTypes_value (ty : TokenTypes) : string :=
  match ty with
  | let_ => "let" | if_ => "if" | else_ => "else" | while_ => "while" | do_ => "do"
  | for_ => "for" | true_ => "true" | false_ => "false" | null_ => "null" | def_ => "def"
  | return_ => "return" | class_ => "class" | new_ => "new" | this_ => "this"
  | super_ => "super" | extends_ => "extends"
  | SEMI => "SEMI" | CURLY_END => "CURLY_END" | CURLY_START => "CURLY_START"
  | PAREN_START => "PAREN_START" | PAREN_END => "PAREN_END" | COMMA => "COMMA"
  | DOT => "DOT" | BRACKET_END => "BRACKET_END" | BRACKET_START => "BRACKET_START"
  | STRING => "STRING" | NUMBER => "NUMBER" | IDENTIFIER => "IDENTIFIER"
  | EQUALITY_OPERATOR => "EQUALITY_OPERATOR" | SIMPLE_ASSIGNMENT => "SIMPLE_ASSIGNMENT"
  | COMPLEX_ASSIGNMENT => "COMPLEX_ASSIGNMENT"
  | ADDITITIVE_OPERATOR => "ADDITITIVE_OPERATOR"
  | MULTIPLICATIVE_OPERATOR => "MULTIPLICATIVE_OPERATOR"
  | RELATIONAL_OPERATOR => "RELATIONAL_OPERATOR"
  | LOGICAL_AND => "LOGICAL_AND" | LOGICAL_OR => "LOGICAL_OR" | LOGICAL_NOT => "LOGICAL_NOT"
  | EOF => "EOF"
  end.

(** The object literal [nameMap] of [tokenTypeToName]: its own properties,
    keyed by the strings the enum members stand for. *)
Definition nameMap : list (string * string) :=
  [ (TokenTypes_value SEMI, ";");
    (TokenTypes_value IDENTIFIER, "Identifier");
    (TokenTypes_value PAREN_END, ")");
    (TokenTypes_value PAREN_START, "(");
    (TokenTypes_value ADDITITIVE_OPERATOR, "+");
    (TokenTypes_value MULTIPLICATIVE_OPERATOR, "*");
    (TokenTypes_value NUMBER, "Number");
    (TokenTypes_value STRING, "String");
    (TokenTypes_value CURLY_START, "{");
    (TokenTypes_value CURLY_END, "}");
    (TokenTypes_value COMMA, ",");
    (TokenTypes_value DOT, ".");
    (TokenTypes_value BRACKET_START, "[");
    (TokenTypes_value BRACKET_END, "]");
    (TokenTypes_value EQUALITY_OPERATOR, "== | !=");
    (TokenTypes_value SIMPLE_ASSIGNMENT, "=");
    (TokenTypes_value COMPLEX_ASSIGNMENT, "+= | -= | *= | /=");
    (TokenTypes_value RELATIONAL_OPERATOR, "< | > | <= | >=");
    (TokenTypes_value LOGICAL_AND, "&&");
    (TokenTypes_value LOGICAL_OR, "||");
    (TokenTypes_value LOGICAL_NOT, "!");
    ("ParenthesizedExpression", "( Expression )") ].

(** The properties that every object of the host language inherits: read on
    [nameMap], each of them is found, and is an object of the host, not a
    string. *)
Definition inherited : list string :=
  [ "constructor"; "hasOwnProperty"; "isPrototypeOf"; "propertyIsEnumerable";
    "toLocaleString"; "toString"; "valueOf"; "__proto__";
    "__defineGetter__"; "__defineSetter__"; "__lookupGetter__"; "__lookupSetter__" ].

(** What [tokenTypeToName] returns: a string, or the inherited property it
    found under the given key. *)
Inductive name : Set :=
| Text (s : string)
| Inherited (key : string).

(** An own property of an object literal. *)
Fixpoint own (key : string) (object : list (string * string)) : option string :=
  match object with
  | [] => None
  | (k, v) :: rest => if String.eqb key k then Some v else own key rest
  end.

(** [tokenTypeToName]: [nameMap?.[type] || type]. An own property that is the
    empty string would count as false and give way to [type]. *)
Definition tokenTypeToName (type : string) : name :=
  match own type nameMap with
  | Some n => if String.eqb n EmptyString then Text type else Text n
  | None => if existsb (String.eqb type) inherited then Inherited type else Text type
  end.

(** [tokenTypesToNames] *)
Definition tokenTypesToNames (types : list string) : list name :=
  map tokenTypeToName types.

End Tokenizer.

(** ** Numbers of the host language

    The conversions between strings and numbers that the host language applies
    when the interpreter compares or adds values of different types
    (ECMAScript's StringToNumber and Number::toString). *)

Module Num.

Local Open Scope Z_scope.

Definition NaN : float := PrimFloat.nan.
Definition Infinity : float := PrimFloat.infinity.

(** The number closest to [m * 10^e] (ties to even), for [0 <= m]. *)
Definition of_decimal (m e : Z) : float :=
  match m with
  | Zpos p =>
      match e with
      | Zneg _ =>
          SF2Prim (SFdiv prec emax (S754_finite false p 0)
                         (S754_finite false (Z.to_pos (10 ^ (- e))) 0))
      | _ => SF2Prim (binary_normalize prec emax (m * 10 ^ e) 0 false)
      end
  | _ => 0%float
  end.

Definition of_nat (n : nat) : float := of_decimal (Z.of_nat n) 0.

Definition digit_value (c : ascii) : Z := Z.of_nat (Str.code c) - 48.

(** Value of a hexadecimal digit, if it is one. *)
Definition hex_value (c : ascii) : option Z :=
  if Str.is_digit c then Some (digit_value c)
  else if Str.between 97 102 c then Some (Z.of_nat (Str.code c) - 87)
  else if Str.between 65 70 c then Some (Z.of_nat (Str.code c) - 55)
  else None.

(** Value of a whole string of digits in a base; [None] when a character is
    not such a digit or the string is empty. *)
Fixpoint digits_in (base acc : Z) (s : string) : option Z :=
  match s with
  | EmptyString => Some acc
  | String c s' =>
      match hex_value c with
      | Some d => if (d <? base)%Z then digits_in base (acc * base + d) s' else None
      | None => None
      end
  end.

Definition radix_literal (base : Z) (s : string) : option Z :=
  match s with
  | EmptyString => None
  | _ => digits_in base 0 s
  end.

(** Reads a run of decimal digits: its value on top of [acc], how many there
    were, and the rest of the string. *)
Fixpoint read_digits (acc : Z) (s : string) : Z * nat * string :=
  match s with
  | String c s' =>
      if Str.is_digit c then
        let '(v, n, rest) := read_digits (acc * 10 + digit_value c) s' in (v, S n, rest)
      else (acc, O, s)
  | EmptyString => (acc, O, s)
  end.

(** ExponentPart, optional: the exponent and nothing left, or [None]. *)
Definition read_exponent (s : string) : option Z :=
  match s with
  | EmptyString => Some 0%Z
  | String c s' =>
      if Ascii.eqb c "e" || Ascii.eqb c "E" then
        let '(neg, body) :=
          match s' with
          | String "-" b => (true, b)
          | String "+" b => (false, b)
          | _ => (false, s')
          end in
        match read_digits 0 body with
        | (_, O, _) => None
        | (v, _, EmptyString) => Some (if neg then - v else v)%Z
        | _ => None
        end
      else None
  end.

(** StrUnsignedDecimalLiteral *)
Definition unsigned_decimal (s : string) : option float :=
  if String.eqb s "Infinity" then Some Infinity
  else
    let '(int_part, n_int, rest) := read_digits 0 s in
    let '(mant, n_frac, rest') :=
      match rest with
      | String "." r => read_digits int_part r
      | _ => (int_part, O, rest)
      end in
    match n_int, n_frac, rest with
    | O, O, _ => None
    | _, _, _ =>
        match read_exponent rest' with
        | Some e => Some (of_decimal mant (e - Z.of_nat n_frac))
        | None => None
        end
    end.

(** StrNumericLiteral *)
Definition numeric_literal (s : string) : float :=
  let decimal (neg : bool) (body : string) :=
    match unsigned_decimal body with
    | Some x => if neg then (- x)%float else x
    | None => NaN
    end in
  match s with
  | String "-" body => decimal true body
  | String "+" body => decimal false body
  | String "0" (String c body) =>
      let base :=
        if Ascii.eqb c "x" || Ascii.eqb c "X" then Some 16%Z
        else if Ascii.eqb c "o" || Ascii.eqb c "O" then Some 8%Z
        else if Ascii.eqb c "b" || Ascii.eqb c "B" then Some 2%Z
        else None in
      match base with
      | Some b =>
          match radix_literal b body with
          | Some v => of_decimal v 0
          | None => NaN
          end
      | None => decimal false s
      end
  | _ => decimal false s
  end.

Fixpoint trim_start (s : string) : string :=
  match s with
  | String c s' => if Str.is_space c then trim_start s' else s
  | EmptyString => s
  end.

Definition trim (s : string) : string :=
  String.rev (trim_start (String.rev (trim_start s))).

(** StringToNumber: blank text is zero, text that is no numeric literal is
    NaN. *)
Definition StringToNumber (s : string) : float :=
  match trim s with
  | EmptyString => 0%float
  | body => numeric_literal body
  end.

(** [x = num / den] for a finite positive [x]. *)
Definition ratio (x : float) : Z * Z :=
  match Prim2SF x with
  | S754_finite _ m e => if 0 <=? e then (Zpos m * 2 ^ e, 1) else (Zpos m, 2 ^ (- e))
  | _ => (0, 1)
  end.

(** [num / den < 10^n] *)
Definition below_pow10 (num den n : Z) : bool :=
  if 0 <=? n then num <? den * 10 ^ n else num * 10 ^ (- n) <? den.

(** The least [n] from [start] on with [num / den < 10^n]. *)
Fixpoint magnitude (fuel : nat) (num den n : Z) : Z :=
  match fuel with
  | O => n
  | S fuel' => if below_pow10 num den n then n else magnitude fuel' num den (n + 1)
  end.

(** The [n] with [10^(n-1) <= num / den < 10^n]; the search starts from an
    estimate that lies below it, by the binary logarithms. *)
Definition decimal_exponent (num den : Z) : Z :=
  magnitude 8 num den ((Z.log2 num - Z.log2 den - 1) * 30103 / 100000 - 1).

(** Numerator and denominator of [num / den / 10^q]. *)
Definition scale (num den q : Z) : Z * Z :=
  if 0 <=? q then (num, den * 10 ^ q) else (num * 10 ^ (- q), den).

(** The digits [s] and exponent [n] of the [k]-digit decimal [s * 10^(n-k)]
    that converts back to [x] and lies closest to it (the even [s] on a tie),
    if there is one. *)
Definition decimal_with (x : float) (num den n0 : Z) (k : Z) : option (Z * Z) :=
  let '(a, b) := scale num den (n0 - k) in
  let lo := a / b in
  let hi := lo + 1 in
  let up := if hi =? 10 ^ k then (10 ^ (k - 1), n0 + 1) else (hi, n0) in
  let ok '(s, n) := (of_decimal s (n - k) =? x)%float in
  match ok (lo, n0), ok up with
  | true, true =>
      match 2 * a ?= (lo + hi) * b with
      | Lt => Some (lo, n0)
      | Gt => Some up
      | Eq => if Z.even lo then Some (lo, n0) else Some up
      end
  | true, false => Some (lo, n0)
  | false, true => Some up
  | false, false => None
  end.

(** The shortest such decimal: [k] grows from [k] on until one converts back
    (seventeen digits always do). *)
Fixpoint shortest (fuel : nat) (x : float) (num den n0 k : Z) : Z * Z * Z :=
  match fuel with
  | O => (fst (scale num den (n0 - k)) / snd (scale num den (n0 - k)), n0, k)
  | S fuel' =>
      match decimal_with x num den n0 k with
      | Some (s, n) => (s, n, k)
      | None => shortest fuel' x num den n0 (k + 1)
      end
  end.

Definition decimal_digits (z : Z) : string :=
  NilZero.string_of_uint (N.to_uint (Z.to_N z)).

Definition zeros (n : Z) : string :=
  string_of_list_ascii (repeat "0"%char (Z.to_nat n)).

(** Number::toString for a finite positive number with digits [s], of which
    there are [k], and decimal exponent [n]. *)
Definition format (s k n : Z) : string :=
  let digits := decimal_digits s in
  if (k <=? n) && (n <=? 21) then digits ++ zeros (n - k)
  else if (0 <? n) && (n <=? 21) then
    Str.take (Z.to_nat n) digits ++ "." ++ Str.slice (Z.to_nat n) digits
  else if (-6 <? n) && (n <=? 0) then "0." ++ zeros (- n) ++ digits
  else
    let e := n - 1 in
    let exponent := (if e <? 0 then "-" else "+") ++ decimal_digits (Z.abs e) in
    if k =? 1 then digits ++ "e" ++ exponent
    else Str.take 1 digits ++ "." ++ Str.slice 1 digits ++ "e" ++ exponent.

Definition positive_to_string (x : float) : string :=
  if PrimFloat.is_infinity x then "Infinity"
  else
    let '(num, den) := ratio x in
    let '(s, n, k) := shortest 17 x num den (decimal_exponent num den) 1 in
    format s k n.

(** Number::toString *)
Definition NumberToString (x : float) : string :=
  if PrimFloat.is_nan x then "NaN"
  else if (x =? 0)%float then "0"
  else if (x <? 0)%float then "-" ++ positive_to_string (- x)%float
  else positive_to_string x.

End Num.

(** ** Syntax trees

    The nodes the interpreter dispatches on, with the fields it reads. An
    absent child ([null]) is [None]. Operators are kept as the strings the
    interpreter switches on. A declarator of a [VariableStatement] is its
    identifier's name with its optional initializer, and a function
    declaration holds its name, its parameters' names and the statements of
    its body block. *)

Inductive node : Type :=
| Program (body : list node)
| ExpressionStatement (expression : node)
| VariableStatement (declarations : list (string * option node))
| BlockStatement (body : list node)
| IfStatement (test consequent : node) (alternate : option node)
| WhileStatement (test body : node)
| ForStatement (init test update : option node) (body : node)
| FunctionDeclaration (name : string) (params : list string) (body : list node)
| ReturnStatement (argument : option node)
| Identifier (name : string)
| NumericLiteral (value : float)
| StringLiteral (value : string)
| BooleanLiteral (value : bool)
| NullLiteral
| UnaryExpression (operator : string) (argument : node)
| BinaryExpression (operator : string) (left right : node)
| LogicalExpression (operator : string) (left right : node)
| AssignmentExpression (operator : string) (left : string) (right : node)
| CallExpression (callee : node) (arguments : list node).

(** ** Runtime values *)

(** What [arity()] answers: a count, or [Infinity]. *)
Inductive Arity : Set :=
| Finite (n : nat)
| Unbounded.

(** Callables are objects: a native of the standard library, known by the name
    it is registered under, or a [ToyLangFunction] built from a declaration
    and the environment it closes over. Environments are referred to by their
    index in the interpreter's store, and [id] tells function objects
    apart. *)
Inductive Callable : Type :=
| NativeFunction (name : string) (arity : Arity)
| ToyLangFunction (id : nat) (declaration : node) (closure : nat).

Inductive value : Type :=
| VUndefined
| VNull
| VBoolean (b : bool)
| VNumber (n : float)
| VString (s : string)
| VCallable (c : Callable).

(** What a method throws: the interpreter's [RuntimeError] (its message; the
    node it also carries only locates the error), the [Return] signal with the
    returned value, a plain [Error] or [SyntaxError], or the host's
    [TypeError] on a call of what is no method or a property read on [null]
    or [undefined]. *)
Inductive exception : Type :=
| RuntimeError (message : string)
| Return (v : value)
| Error (message : string)
| SyntaxError (message : string)
| TypeError.

(** How the evaluation of a node ends. [OutOfFuel] is no behaviour of the
    program: it tells that the bound on the depth of nested visits, or on the
    iterations of a loop, was reached. *)
Inductive completion (A : Type) : Type :=
| Normal (a : A)
| Throw (e : exception)
| OutOfFuel.

Arguments Normal {A} a.
Arguments Throw {A} e.
Arguments OutOfFuel {A}.

(** ** Environment *)

Module Env.

(** Modelled from the spec: the class Environment, which is not among the
    sources. It is a mapping from names to values with a back-reference to the
    enclosing environment ([None] for the global scope); [add] inserts into
    the scope itself, and [get] and [assign] walk outward to the first scope
    in which the name exists. *)
Record t : Type := mk {
  record : gmap string value;
  parent : option nat
}.

(** The store of all environments created so far; an environment is referred
    to by its index. *)
Abbreviation store := (list t).

(** Modelled from the spec: [new Environment(parent)], an empty scope with
    its back-reference. *)
Definition create (parent : option nat) (h : store) : nat * store :=
  (List.length h, (h ++ [mk ∅ parent])%list).

(** Modelled from the spec: [env.add(name, v)] (the spec's [define]) inserts
    into the scope [env] itself; defining a name again is permitted, and the
    last write is the one seen. *)
Definition add (env : nat) (name : string) (v : value) (h : store) : store :=
  match h !! env with
  | Some e => <[env := mk (<[name := v]> (record e)) (parent e)]> h
  | None => h
  end.

(** Modelled from the spec: the walk of [get] and [assign] from [env] outward
    through the back-references, to the first scope in which [name] exists.
    It is bounded by [fuel]; the number of environments suffices, as every
    back-reference points to an environment created earlier. *)
Fixpoint resolve (fuel : nat) (h : store) (env : nat) (name : string) : option nat :=
  match fuel with
  | O => None
  | S fuel' =>
      match h !! env with
      | Some e =>
          match record e !! name with
          | Some _ => Some env
          | None =>
              match parent e with
              | Some p => resolve fuel' h p name
              | None => None
              end
          end
      | None => None
      end
  end.

(** Modelled from the spec: the value [name] is bound to in the first scope
    that holds it. *)
Definition lookup (h : store) (env : nat) (name : string) : option value :=
  match resolve (List.length h) h env name with
  | Some scope =>
      match h !! scope with
      | Some e => record e !! name
      | None => None
      end
  | None => None
  end.

(** Modelled from the spec: [env.get(name)] fails with the RuntimeError
    UndefinedVariable when no scope of the chain holds the name. *)
Definition get (h : store) (env : nat) (name : string) : completion value :=
  match lookup h env name with
  | Some v => Normal v
  | None => Throw (RuntimeError "UndefinedVariable")
  end.

(** Modelled from the spec: [env.assign(name, v)] writes into the first
    scope in which the name exists and fails with the RuntimeError
    UndefinedVariable when there is none; it never creates a binding. *)
Definition assign (h : store) (env : nat) (name : string) (v : value)
  : completion unit * store :=
  match resolve (List.length h) h env name with
  | Some scope => (Normal tt, add scope name v h)
  | None => (Throw (RuntimeError "UndefinedVariable"), h)
  end.

(** Every back-reference points to an environment created earlier. *)
Definition well_formed (h : store) : Prop :=
  forall env e p, h !! env = Some e -> parent e = Some p -> (p < env)%nat.

End Env.

(** ** Interpreter state and host *)

(** The interpreter object: its global and current environments, held by
    reference into the store of environments. [functions] counts the function
    objects created so far and numbers the next one. The field [ast], which
    [execute] writes and nothing reads, is left out. *)
Record Interpreter : Type := mkInterpreter {
  store : Env.store;
  globals : nat;
  environment : nat;
  functions : nat
}.

Definition set_store (h : Env.store) (i : Interpreter) : Interpreter :=
  mkInterpreter h (globals i) (environment i) (functions i).

Definition set_environment (env : nat) (i : Interpreter) : Interpreter :=
  mkInterpreter (store i) (globals i) env (functions i).

(** Modelled from the spec: the standard library and the class
    CallableFunction are not among the sources. A native is invoked with the
    interpreter and the argument values and returns a value or throws;
    [callable_to_string] is the string a callable object converts to when the
    host language needs a primitive value of it. *)
Record Host : Type := mkHost {
  native_call : string -> Interpreter -> list value -> completion value * Interpreter;
  callable_to_string : Callable -> string
}.

(** Computations of the interpreter: they end normally or by a throw, and
    leave an interpreter state either way. *)
Definition M (A : Type) : Type := Interpreter -> completion A * Interpreter.

Definition ret {A : Type} (a : A) : M A := fun i => (Normal a, i).

Definition throw {A : Type} (e : exception) : M A := fun i => (Throw e, i).

Definition bind {A B : Type} (m : M A) (k : A -> M B) : M B := fun i =>
  match m i with
  | (Normal a, i') => k a i'
  | (Throw e, i') => (Throw e, i')
  | (OutOfFuel, i') => (OutOfFuel, i')
  end.

Notation "'do' x <- m ; k" := (bind m (fun x => k))
  (at level 10, x name, m at level 100, k at level 200).

(** A pure step that may throw. *)
Definition lift {A : Type} (c : completion A) : M A := fun i => (c, i).

(** [m'] ends as [m] does wherever [m] ends within its fuel. *)
Definition refines {A : Type} (m m' : M A) : Prop :=
  forall i r i', m i = (r, i') -> r <> OutOfFuel -> m' i = (r, i').

(** ** Values in the host language *)

Module ES.

Section Conversions.

Variable H : Host.

(** Truthiness, as [if], [while], [for], [!], [&&] and [||] test it. *)
Definition ToBoolean (v : value) : bool :=
  match v with
  | VUndefined => false
  | VNull => false
  | VBoolean b => b
  | VNumber n => negb ((n =? 0)%float || PrimFloat.is_nan n)
  | VString s => negb (String.eqb s EmptyString)
  | VCallable _ => true
  end.

Definition typeof (v : value) : string :=
  match v with
  | VUndefined => "undefined"
  | VNull => "object"
  | VBoolean _ => "boolean"
  | VNumber _ => "number"
  | VString _ => "string"
  | VCallable _ => "object"
  end.

(** The language's types of values, which [==] compares before it converts. *)
Inductive type : Set :=
| TUndefined | TNull | TBoolean | TNumber | TString | TObject.

Definition type_of (v : value) : type :=
  match v with
  | VUndefined => TUndefined
  | VNull => TNull
  | VBoolean _ => TBoolean
  | VNumber _ => TNumber
  | VString _ => TString
  | VCallable _ => TObject
  end.

Definition ToPrimitive (v : value) : value :=
  match v with
  | VCallable c => VString (callable_to_string H c)
  | _ => v
  end.

Definition ToNumber (v : value) : float :=
  match ToPrimitive v with
  | VUndefined => Num.NaN
  | VNull => 0%float
  | VBoolean b => if b then 1%float else 0%float
  | VNumber n => n
  | VString s => Num.StringToNumber s
  | VCallable _ => Num.NaN
  end.

Definition ToString (v : value) : string :=
  match ToPrimitive v with
  | VUndefined => "undefined"
  | VNull => "null"
  | VBoolean b => if b then "true" else "false"
  | VNumber n => Num.NumberToString n
  | VString s => s
  | VCallable _ => EmptyString
  end.

(** Identity of callable objects. *)
Definition same_object (a b : Callable) : bool :=
  match a, b with
  | NativeFunction n _, NativeFunction m _ => String.eqb n m
  | ToyLangFunction i _ _, ToyLangFunction j _ _ => Nat.eqb i j
  | _, _ => false
  end.

(** [x === y] *)
Definition strict_equal (x y : value) : bool :=
  match x, y with
  | VUndefined, VUndefined => true
  | VNull, VNull => true
  | VBoolean a, VBoolean b => Bool.eqb a b
  | VNumber a, VNumber b => (a =? b)%float
  | VString a, VString b => String.eqb a b
  | VCallable a, VCallable b => same_object a b
  | _, _ => false
  end.

(** [x == y]: values of one type are compared as they are; [null] and
    [undefined] equal each other and nothing else; otherwise an object is
    converted to a primitive value, two strings are compared as strings, and
    anything else as numbers. *)
Definition loose_equal (x y : value) : bool :=
  match x, y with
  | (VUndefined | VNull), (VUndefined | VNull) => true
  | (VUndefined | VNull), _ => false
  | _, (VUndefined | VNull) => false
  | VCallable a, VCallable b => same_object a b
  | _, _ =>
      match ToPrimitive x, ToPrimitive y with
      | VString a, VString b => String.eqb a b
      | px, py => (ToNumber px =? ToNumber py)%float
      end
  end.

(** [x + y] on any two values: concatenation as soon as one side is a string
    once converted to a primitive value, the sum of the numbers otherwise. *)
Definition add (x y : value) : value :=
  match ToPrimitive x, ToPrimitive y with
  | VString a, py => VString (a ++ ToString py)
  | px, VString b => VString (ToString px ++ b)
  | px, py => VNumber (ToNumber px + ToNumber py)%float
  end.

End Conversions.

End ES.

(** ** Interpreter *)

Section Interpreter.

Variable H : Host.

Definition quote (s : string) : string :=
  String Str.dquote s ++ String Str.dquote EmptyString.

(** [checkNumberOperands]: the two numbers, or the error thrown. *)
Definition checkNumberOperands (left right : value) : completion (float * float) :=
  match left, right with
  | VNumber l, VNumber r => Normal (l, r)
  | _, _ => Throw (RuntimeError "Operands must be numbers.")
  end.

(** [checkNumberOperand] *)
Definition checkNumberOperand (operand : value) : completion float :=
  match operand with
  | VNumber n => Normal n
  | _ => Throw (RuntimeError "Operand must be number.")
  end.

(** The message of the error of [+] on operands that are neither two numbers
    nor two strings. *)
Definition mismatch_message (l r : value) : string :=
  "Runtime: Mismatched type, cannot " ++ quote (ES.typeof l) ++ " + " ++ quote (ES.typeof r).

(** The [switch] of [visitBinaryExpression] on the operator, once both
    operands are evaluated. *)
Definition binaryOperation (op : string) (left right : value) : completion value :=
  let numbers (f : float -> float -> value) :=
    match checkNumberOperands left right with
    | Normal (l, r) => Normal (f l r)
    | Throw e => Throw e
    | OutOfFuel => OutOfFuel
    end in
  if String.eqb op "==" then Normal (VBoolean (ES.loose_equal H left right))
  else if String.eqb op "!=" then Normal (VBoolean (negb (ES.loose_equal H left right)))
  else if String.eqb op "+" then
    match left, right with
    | VNumber l, VNumber r => Normal (VNumber (l + r)%float)
    | VString l, VString r => Normal (VString (l ++ r))
    | _, _ =>
        Throw (RuntimeError (mismatch_message left right))
    end
  else if String.eqb op "-" then numbers (fun l r => VNumber (l - r)%float)
  else if String.eqb op "/" then numbers (fun l r => VNumber (l / r)%float)
  else if String.eqb op "*" then numbers (fun l r => VNumber (l * r)%float)
  else if String.eqb op ">" then numbers (fun l r => VBoolean (r <? l)%float)
  else if String.eqb op "<" then numbers (fun l r => VBoolean (l <? r)%float)
  else if String.eqb op ">=" then numbers (fun l r => VBoolean (r <=? l)%float)
  else if String.eqb op "<=" then numbers (fun l r => VBoolean (l <=? r)%float)
  else Throw (Error "Runtime: Unknown Binary operation").

(** The [switch] of [visitLogicalExpression], once both operands are
    evaluated: [left && right] and [left || right] of the host language. *)
Definition logicalOperation (op : string) (left right : value) : completion value :=
  if String.eqb op "&&" then Normal (if ES.ToBoolean left then right else left)
  else if String.eqb op "||" then Normal (if ES.ToBoolean left then left else right)
  else Throw (Error "Runtime: Unknown Logical operation").

(** The [switch] of [visitUnaryExpression]. *)
Definition unaryOperation (op : string) (right : value) : completion value :=
  if String.eqb op "-" then
    match checkNumberOperand right with
    | Normal n => Normal (VNumber (- n)%float)
    | Throw e => Throw e
    | OutOfFuel => OutOfFuel
    end
  else if String.eqb op "+" then Normal right
  else if String.eqb op "!" then Normal (VBoolean (negb (ES.ToBoolean right)))
  else Normal VNull.

(** The [switch] of [visitAssignmentExpression]: for the operator, the value
    [lhs] read from the variable and the value of the right side, the value to
    assign if a case assigns, and the value of [lhs] that is returned. *)
Definition assignmentOperation (op : string) (lhs v : value)
  : completion (option value * value) :=
  let numeric (f : float -> float -> float) :=
    match v with
    | VNumber n =>
        let lhs' := VNumber (f (ES.ToNumber H lhs) n) in Normal (Some lhs', lhs')
    | _ => Throw (RuntimeError "Operand must be a number")
    end in
  if String.eqb op "=" then Normal (Some v, lhs)
  else if String.eqb op "+=" then let lhs' := ES.add H lhs v in Normal (Some lhs', lhs')
  else if String.eqb op "-=" then numeric PrimFloat.sub
  else if String.eqb op "/=" then numeric PrimFloat.div
  else if String.eqb op "*=" then numeric PrimFloat.mul
  else Normal (None, lhs).

(** [this.environment.get(name)] *)
Definition environment_get (name : string) : M value := fun i =>
  (Env.get (store i) (environment i) name, i).

(** [this.environment.add(name, v)] *)
Definition environment_add (name : string) (v : value) : M unit := fun i =>
  (Normal tt, set_store (Env.add (environment i) name v (store i)) i).

(** [this.environment.assign(name, v)] *)
Definition environment_assign (name : string) (v : value) : M unit := fun i =>
  let '(r, h) := Env.assign (store i) (environment i) name v in (r, set_store h i).

(** [this.environment] *)
Definition this_environment : M nat := fun i => (Normal (environment i), i).

(** [new Environment(parent)] *)
Definition new_Environment (parent : nat) : M nat := fun i =>
  let '(env, h) := Env.create (Some parent) (store i) in (Normal env, set_store h i).

(** [new ToyLangFunction(declaration, closure)] *)
Definition new_ToyLangFunction (declaration : node) (closure : nat) : M Callable := fun i =>
  (Normal (ToyLangFunction (functions i) declaration closure),
   mkInterpreter (store i) (globals i) (environment i) (S (functions i))).

(** Modelled from the spec: [callee.arity()] of the absent CallableFunction,
    the declared number of parameters of a user function and the fixed or
    unbounded arity of a native. *)
Definition arity (c : Callable) : Arity :=
  match c with
  | NativeFunction _ a => a
  | ToyLangFunction _ (FunctionDeclaration _ params _) _ => Finite (List.length params)
  | ToyLangFunction _ _ _ => Finite 0
  end.

(** Binds the parameters to the arguments by position, in the scope [env]. *)
Fixpoint bind_parameters (env : nat) (params : list string) (args : list value)
  (h : Env.store) : Env.store :=
  match params with
  | [] => h
  | p :: params' =>
      bind_parameters env params' (tl args) (Env.add env p (hd VUndefined args) h)
  end.

(** The test [(!callee.prototype) instanceof CallableFunction] of
    [visitCallExpression]. Reading a property of [null] or [undefined] throws
    in the host. Of any other callee the property is read and negated, so
    that what is tested for being a callable object is a boolean; the model
    takes the property to be [undefined], which changes nothing to that. *)
Definition prototype (callee : value) : completion value :=
  match callee with
  | VUndefined | VNull => Throw TypeError
  | _ => Normal VUndefined
  end.

Definition instanceof_CallableFunction (v : value) : bool :=
  match v with
  | VCallable _ => true
  | _ => false
  end.

(** The message of the error on a wrong number of arguments. *)
Definition arity_message (expected : Arity) (got : nat) : string :=
  "Expected "
  ++ match expected with
     | Finite n => Num.NumberToString (Num.of_nat n)
     | Unbounded => "Infinity"
     end
  ++ " arguments but got " ++ Num.NumberToString (Num.of_nat got) ++ ".".

(** [args.length != callee.arity() && callee.arity() !== Infinity] *)
Definition arity_mismatch (got : nat) (a : Arity) : bool :=
  match a with
  | Finite n => negb (Nat.eqb got n)
  | Unbounded => false
  end.

(** *** The [visit*] methods

    Each method is given [visit], the method [this.visit] it calls back, and
    the loops of the host language are given [bound], the number of
    iterations after which the model gives up with [OutOfFuel]. *)

Section Methods.

Variable visit : option node -> M value.
Variable bound : nat.

(** A [for ... of] loop that visits each statement. *)
Fixpoint for_each (statements : list node) : M unit :=
  match statements with
  | [] => ret tt
  | statement :: rest => do _ <- visit (Some statement); for_each rest
  end.

Definition visitIdentifier (name : string) : M value := environment_get name.

Definition visitExpression (expression : node) : M value := visit (Some expression).

Definition visitAssignmentExpression (operator left_ : string) (right_ : node) : M value :=
  do v <- visit (Some right_);
  do lhs <- environment_get left_;
  do r <- lift (assignmentOperation operator lhs v);
  match r with
  | (Some assigned, result) => do _ <- environment_assign left_ assigned; ret result
  | (None, result) => ret result
  end.

Definition visitReturnStatement (argument : option node) : M value :=
  do v <- match argument with
          | Some e => visit (Some e)
          | None => ret VNull
          end;
  throw (Return v).

Definition visitFunctionDeclaration (name : string) (params : list string) (body : list node)
  : M value :=
  do closure <- this_environment;
  do f <- new_ToyLangFunction (FunctionDeclaration name params body) closure;
  do _ <- environment_add name (VCallable f);
  ret VNull.

(** [executeBlock]: the statements run in [env]; the environment that was
    current is restored however they end. *)
Definition executeBlock (statements : list node) (env : nat) : M unit := fun i =>
  let previous := environment i in
  let '(r, i') := for_each statements (set_environment env i) in
  (r, set_environment previous i').

(** Modelled from the spec: [callee.call(interpreter, args)]. A native is the
    host's procedure. A user function runs the statements of its body in a new
    environment chained to the one it captured, with its parameters bound by
    position; the [Return] signal is caught here and yields the carried
    value, and a body that ends without one yields [null]. *)
Definition call (c : Callable) (args : list value) : M value :=
  match c with
  | NativeFunction name _ => fun i => native_call H name i args
  | ToyLangFunction _ (FunctionDeclaration _ params body) closure => fun i =>
      let '(env, h) := Env.create (Some closure) (store i) in
      let i1 := set_store (bind_parameters env params args h) i in
      match executeBlock body env i1 with
      | (Normal _, i') => (Normal VNull, i')
      | (Throw (Return v), i') => (Normal v, i')
      | (Throw e, i') => (Throw e, i')
      | (OutOfFuel, i') => (OutOfFuel, i')
      end
  | ToyLangFunction _ _ _ => ret VNull
  end.

(** The arguments of a call, evaluated from left to right. *)
Fixpoint visit_arguments (arguments : list node) : M (list value) :=
  match arguments with
  | [] => ret []
  | argument :: rest =>
      do v <- visit (Some argument);
      do vs <- visit_arguments rest;
      ret (v :: vs)
  end.

Definition visitCallExpression (callee : node) (arguments : list node) : M value :=
  do c <- visit (Some callee);
  do p <- lift (prototype c);
  if instanceof_CallableFunction (VBoolean (negb (ES.ToBoolean p))) then
    throw (RuntimeError "Can only call functions and classes")
  else
    do args <- visit_arguments arguments;
    match c with
    | VCallable f =>
        if arity_mismatch (List.length args) (arity f) then
          throw (RuntimeError (arity_message (arity f) (List.length args)))
        else call f args
    | _ => throw TypeError
    end.

(** The loop runs over the declarators, and its body returns: only the first
    declarator is ever looked at. *)
Definition visitVariableStatement (declarations : list (string * option node)) : M value :=
  match declarations with
  | (id, init) :: _ =>
      do v <- match init with
              | Some e => visit (Some e)
              | None => ret VNull
              end;
      do _ <- environment_add id v;
      ret VNull
  | [] => ret VNull
  end.

Definition visitBlockStatement (body : list node) : M value :=
  do current <- this_environment;
  do env <- new_Environment current;
  do _ <- executeBlock body env;
  ret VNull.

Definition visitIfStatement (test consequent : node) (alternate : option node) : M value :=
  do t <- visit (Some test);
  if ES.ToBoolean t then
    do _ <- visit (Some consequent); ret VNull
  else
    match alternate with
    | Some a => do _ <- visit (Some a); ret VNull
    | None => ret VNull
    end.

(** [while (this.visit(node.test)) this.visit(node.body)], for [n] iterations
    at most *)
Fixpoint while_loop (n : nat) (test body : node) : M unit :=
  match n with
  | O => fun i => (OutOfFuel, i)
  | S n' =>
      do t <- visit (Some test);
      if ES.ToBoolean t then
        do _ <- visit (Some body); while_loop n' test body
      else ret tt
  end.

Definition visitWhileStatement (test body : node) : M value :=
  do _ <- while_loop bound test body; ret VNull.

(** [for (;;) this.visit(node.body)], for [n] iterations at most *)
Fixpoint forever (n : nat) (body : node) : M value :=
  match n with
  | O => fun i => (OutOfFuel, i)
  | S n' => do _ <- visit (Some body); forever n' body
  end.

(** [for (...; this.visit(node.test); this.visit(node.update))
    this.visit(node.body)] after the initializer, for [n] iterations at
    most *)
Fixpoint for_loop (n : nat) (test update : option node) (body : node) : M unit :=
  match n with
  | O => fun i => (OutOfFuel, i)
  | S n' =>
      do t <- visit test;
      if ES.ToBoolean t then
        do _ <- visit (Some body);
        do _ <- visit update;
        for_loop n' test update body
      else ret tt
  end.

Definition visitForStatement (init test update : option node) (body : node) : M value :=
  match init, test, update with
  | None, None, None => forever bound body
  | _, _, _ =>
      do _ <- visit init;
      do _ <- for_loop bound test update body;
      ret VNull
  end.

Definition visitBinaryExpression (operator : string) (left_ right_ : node) : M value :=
  do l <- visit (Some left_);
  do r <- visit (Some right_);
  lift (binaryOperation operator l r).

Definition visitLogicalExpression (operator : string) (left_ right_ : node) : M value :=
  do l <- visit (Some left_);
  do r <- visit (Some right_);
  lift (logicalOperation operator l r).

Definition visitLiterals (n : node) : M value :=
  match n with
  | NumericLiteral v => ret (VNumber v)
  | StringLiteral v => ret (VString v)
  | BooleanLiteral b => ret (VBoolean b)
  | NullLiteral => ret VNull
  | _ => throw (SyntaxError "Runtime: Unexpected literal")
  end.

Definition visitUnaryExpression (operator : string) (argument : node) : M value :=
  do right <- visit (Some argument);
  lift (unaryOperation operator right).

Definition visitProgram (body : list node) : M value :=
  do _ <- for_each body; ret VNull.

(** The [switch] of [visit] on the type of the node. Boolean and null
    literals have no case of their own and reach the default. *)
Definition dispatch (n : option node) : M value :=
  match n with
  | None => ret VUndefined
  | Some (ExpressionStatement expression) => visitExpression expression
  | Some (IfStatement test consequent alternate) => visitIfStatement test consequent alternate
  | Some (WhileStatement test body) => visitWhileStatement test body
  | Some (ForStatement init test update body) => visitForStatement init test update body
  | Some (VariableStatement declarations) => visitVariableStatement declarations
  | Some (BlockStatement body) => visitBlockStatement body
  | Some (CallExpression callee arguments) => visitCallExpression callee arguments
  | Some (UnaryExpression operator argument) => visitUnaryExpression operator argument
  | Some (BinaryExpression operator left_ right_) => visitBinaryExpression operator left_ right_
  | Some (LogicalExpression operator left_ right_) =>
      visitLogicalExpression operator left_ right_
  | Some (AssignmentExpression operator left_ right_) =>
      visitAssignmentExpression operator left_ right_
  | Some (FunctionDeclaration name params body) => visitFunctionDeclaration name params body
  | Some (ReturnStatement argument) => visitReturnStatement argument
  | Some (Program body) => visitProgram body
  | Some (NumericLiteral v) => visitLiterals (NumericLiteral v)
  | Some (StringLiteral v) => visitLiterals (StringLiteral v)
  | Some (Identifier name) => visitIdentifier name
  | Some (BooleanLiteral _) => ret VNull
  | Some NullLiteral => ret VNull
  end.

End Methods.

(** [visit]: the methods call back [visit] with one unit of fuel less, so
    that [fuel] bounds the depth of nested visits; it also bounds the
    iterations of each loop. *)
Fixpoint visit (fuel : nat) (n : option node) {struct fuel} : M value :=
  match fuel with
  | O => fun i => (OutOfFuel, i)
  | S fuel' => dispatch (visit fuel') fuel' n
  end.

(** [execute] *)
Definition execute (fuel : nat) (ast : node) : M value := visit fuel (Some ast).

End Interpreter.

(** [new Interpreter()]: the globals hold the natives of the standard
    library, given by the names they are registered under and their
    arities. *)
Definition new_Interpreter (stdlib : list (string * Arity)) : Interpreter :=
  let '(g, h) := Env.create None [] in
  mkInterpreter
    (fold_left (fun h '(name, a) => Env.add g name (VCallable (NativeFunction name a)) h)
               stdlib h)
    g g 0.

(** ** Classes of values and operators that the properties speak of *)

Definition is_number (v : value) : bool :=
  match v with
  | VNumber _ => true
  | _ => false
  end.

Definition is_string (v : value) : bool :=
  match v with
  | VString _ => true
  | _ => false
  end.

(** The values the host language takes for false in a condition. *)
Definition falsy (v : value) : Prop :=
  v = VBoolean false \/ v = VNull \/ v = VUndefined \/ v = VString EmptyString
  \/ exists n, v = VNumber n /\ ((n =? 0)%float = true \/ PrimFloat.is_nan n = true).

(** The operators that work on numbers only. *)
Definition numeric_operators : list string := ["-"; "*"; "/"; ">"; "<"; ">="; "<="].

(** The values [null] and [undefined]. *)
Definition nullish (v : value) : bool :=
  match v with
  | VUndefined | VNull => true
  | _ => false
  end.

(** The comparison [x == y] as the standard of the host language lays it
    down, step by step: [IsLooselyEqual H x y b] when the comparison of [x]
    and [y] gives [b]. Values of one type are compared as [===] compares
    them. [null] and [undefined] equal each other. Of a number and a string,
    the string is converted to a number. A boolean is replaced by the number
    1 or 0, and an object that meets a number or a string by the primitive
    value it converts to, and the comparison starts again. Any other pair,
    which is [null] or [undefined] against a number, a string or an object,
    is unequal: [null] and [undefined] are never converted. *)
Inductive IsLooselyEqual (H : Host) : value -> value -> bool -> Prop :=
| LE_same_type x y :
    ES.type_of x = ES.type_of y -> IsLooselyEqual H x y (ES.strict_equal x y)
| LE_null_undefined : IsLooselyEqual H VNull VUndefined true
| LE_undefined_null : IsLooselyEqual H VUndefined VNull true
| LE_number_string n s b :
    IsLooselyEqual H (VNumber n) (VNumber (Num.StringToNumber s)) b ->
    IsLooselyEqual H (VNumber n) (VString s) b
| LE_string_number s n b :
    IsLooselyEqual H (VNumber (Num.StringToNumber s)) (VNumber n) b ->
    IsLooselyEqual H (VString s) (VNumber n) b
| LE_boolean_left (a : bool) y b :
    ES.type_of y <> ES.TBoolean ->
    IsLooselyEqual H (VNumber (if a then 1 else 0)%float) y b ->
    IsLooselyEqual H (VBoolean a) y b
| LE_boolean_right x (a : bool) b :
    ES.type_of x <> ES.TBoolean ->
    IsLooselyEqual H x (VNumber (if a then 1 else 0)%float) b ->
    IsLooselyEqual H x (VBoolean a) b
| LE_primitive_object x c b :
    ES.type_of x = ES.TNumber \/ ES.type_of x = ES.TString ->
    IsLooselyEqual H x (VString (callable_to_string H c)) b ->
    IsLooselyEqual H x (VCallable c) b
| LE_object_primitive c y b :
    ES.type_of y = ES.TNumber \/ ES.type_of y = ES.TString ->
    IsLooselyEqual H (VString (callable_to_string H c)) y b ->
    IsLooselyEqual H (VCallable c) y b
| LE_nullish_left x y :
    nullish x = true ->
    ES.type_of y = ES.TNumber \/ ES.type_of y = ES.TString \/ ES.type_of y = ES.TObject ->
    IsLooselyEqual H x y false
| LE_nullish_right x y :
    ES.type_of x = ES.TNumber \/ ES.type_of x = ES.TString \/ ES.type_of x = ES.TObject ->
    nullish y = true ->
    IsLooselyEqual H x y false.

(** ** Sample host and programs *)

(** A host with an empty standard library: no native is ever registered, so
    [native_call] is never reached. *)
Definition bare_host : Host :=
  mkHost (fun _ i _ => (Normal VUndefined, i)) (fun _ => "[object Object]").

(** The interpreter as constructed over the empty standard library. *)
Definition fresh : Interpreter := new_Interpreter [].

(** Runs a program on the fresh interpreter of the bare host. *)
Definition run (program : node) : completion value * Interpreter :=
  execute bare_host 30 program fresh.

(** What [name] is bound to in the current environment of [i]. *)
Definition bound_to (name : string) (i : Interpreter) : option value :=
  Env.lookup (store i) (environment i) name.

(** [1 == 2], which evaluates to [false] *)
Definition one_equals_two : node :=
  BinaryExpression "==" (NumericLiteral 1) (NumericLiteral 2).

(** [1 - "a"], whose evaluation throws *)
Definition one_minus_a : node :=
  BinaryExpression "-" (NumericLiteral 1) (StringLiteral "a").

(** [Banao taken = "none"; Agr (test) { taken = "consequent"; } Warna
    { taken = "alternate"; }] *)
Definition declare_taken : node :=
  VariableStatement [("taken", Some (StringLiteral "none"))].

Definition if_taken (test : node) : node :=
  IfStatement test
    (BlockStatement
       [ExpressionStatement (AssignmentExpression "=" "taken" (StringLiteral "consequent"))])
    (Some (BlockStatement
       [ExpressionStatement (AssignmentExpression "=" "taken" (StringLiteral "alternate"))])).

Definition branch_taken (test : node) : node :=
  Program [declare_taken; if_taken test].

Definition with_taken : Interpreter := snd (run declare_taken).

(** [Banao a = 1, b = 2;] *)
Definition declare_a_b : node :=
  VariableStatement [("a", Some (NumericLiteral 1)); ("b", Some (NumericLiteral 2))].

(** [Banao n = 0; for (Banao i = 0; ; ) { n += 1; }] *)
Definition count_without_test : node :=
  Program
    [ VariableStatement [("n", Some (NumericLiteral 0))];
      ForStatement (Some (VariableStatement [("i", Some (NumericLiteral 0))])) None None
        (BlockStatement
           [ExpressionStatement (AssignmentExpression "+=" "n" (NumericLiteral 1))]) ].

(** [def f(a) { }] *)
Definition declare_f : node := FunctionDeclaration "f" ["a"] [].

(** The function object that [declare_f] creates on the fresh interpreter,
    and the interpreter after the declaration. *)
Definition f_object : Callable := ToyLangFunction 0 declare_f 0.

Definition with_f : Interpreter := snd (run declare_f).

(** [Banao x = 1;] run on the fresh interpreter. *)
Definition with_x : Interpreter :=
  snd (run (VariableStatement [("x", Some (NumericLiteral 1))])).

(** The state inside a block opened after [Banao x = 1;]: a new, empty
    environment is current, whose parent is the global one that holds [x]. *)
Definition with_x_in_block : Interpreter :=
  let '(env, h) := Env.create (Some (environment with_x)) (store with_x) in
  set_environment env (set_store h with_x).

(** The recursive factorial of the example runner, called on 5:
    [def fact(number) { Agr (number == 0) { WapisBhejo 1; }
       WapisBhejo number * fact(number - 1); }
     Banao result = fact(5);] *)
Definition factorial_program : node :=
  Program
    [ FunctionDeclaration "fact" ["number"]
        [ IfStatement (BinaryExpression "==" (Identifier "number") (NumericLiteral 0))
            (BlockStatement [ReturnStatement (Some (NumericLiteral 1))]) None;
          ReturnStatement
            (Some (BinaryExpression "*" (Identifier "number")
                     (CallExpression (Identifier "fact")
                        [BinaryExpression "-" (Identifier "number") (NumericLiteral 1)]))) ];
      VariableStatement
        [("result", Some (CallExpression (Identifier "fact") [NumericLiteral 5]))] ].

(** The iterative factorial of the example runner, called on 5:
    [def factIter(n) { Banao fac = 1;
       for (Banao i = 1; i < n + 1; i += 1) { fac *= i; }
       WapisBhejo fac; }
     Banao result = factIter(5);] *)
Definition iterative_factorial_program : node :=
  Program
    [ FunctionDeclaration "factIter" ["n"]
        [ VariableStatement [("fac", Some (NumericLiteral 1))];
          ForStatement
            (Some (VariableStatement [("i", Some (NumericLiteral 1))]))
            (Some (BinaryExpression "<" (Identifier "i")
                     (BinaryExpression "+" (Identifier "n") (NumericLiteral 1))))
            (Some (AssignmentExpression "+=" "i" (NumericLiteral 1)))
            (BlockStatement
               [ExpressionStatement (AssignmentExpression "*=" "fac" (Identifier "i"))]);
          ReturnStatement (Some (Identifier "fac")) ];
      VariableStatement
        [("result", Some (CallExpression (Identifier "factIter") [NumericLiteral 5]))] ].


(** [{ Banao x = 1; } x;] *)
Definition block_then_use : node :=
  Program
    [ BlockStatement [VariableStatement [("x", Some (NumericLiteral 1))]];
      ExpressionStatement (Identifier "x") ].

(** ** Relations between states that the properties speak of *)

(** How the store of environments changes from [h] to [h']: no environment
    is removed or given another back-reference, and every environment keeps
    the names it holds; only the environment [except], if any, may hold more
    names than before. *)
Definition grows (except : option nat) (h h' : Env.store) : Prop :=
  (List.length h <= List.length h')%nat
  /\ forall e t, h !! e = Some t ->
       exists t', h' !! e = Some t'
                  /\ Env.parent t' = Env.parent t
                  /\ dom (Env.record t) ⊆ dom (Env.record t')
                  /\ (except <> Some e -> dom (Env.record t') = dom (Env.record t)).

(** The same for interpreter states, whose current and global environments
    stay the same, and whose count of function objects does not decrease. *)
Definition changes (except : option nat) (i i' : Interpreter) : Prop :=
  environment i' = environment i
  /\ globals i' = globals i
  /\ (functions i <= functions i')%nat
  /\ grows except (store i) (store i').

(** What the evaluation of a node may change: names are added to the current
    environment only. *)
Definition frame (i i' : Interpreter) : Prop := changes (Some (environment i)) i i'.

(** Every run of [m] relates the state it starts in to the state it leaves,
    however it ends. *)
Definition ensures {A : Type} (R : Interpreter -> Interpreter -> Prop) (m : M A) : Prop :=
  forall i r i', m i = (r, i') -> R i i'.

(** The natives of a host respect the scopes: whatever they do to the
    interpreter is within [frame]. *)
Definition natives_keep_scopes (H : Host) : Prop :=
  forall name args, ensures frame (fun i => native_call H name i args).

(** [Banao n = 0;] run on the fresh interpreter, and the loop
    [JabTak (n < 3) { n += 1; }]. *)
Definition with_n : Interpreter :=
  snd (run (VariableStatement [("n", Some (NumericLiteral 0))])).

Definition n_below_three : node :=
  BinaryExpression "<" (Identifier "n") (NumericLiteral 3).

Definition count_to_three : node :=
  WhileStatement n_below_three
    (BlockStatement [ExpressionStatement (AssignmentExpression "+=" "n" (NumericLiteral 1))]).

(** * Properties *)

(** ** Steps of the interpreter monad *)

Lemma bind_Normal {A B : Type} (m : M A) (k : A -> M B) i a i' :
  m i = (Normal a, i') -> bind m k i = k a i'.
Proof. intros Hm. unfold bind. rewrite Hm. reflexivity. Qed.

Lemma bind_Throw {A B : Type} (m : M A) (k : A -> M B) i e i' :
  m i = (Throw e, i') -> bind m k i = (Throw e, i').
Proof. intros Hm. unfold bind. rewrite Hm. reflexivity. Qed.

(** ** Fuel

    An evaluation that ends within its fuel ends the same way with more of
    it: what the properties below state for some fuel holds for any larger
    one. *)

Lemma refines_refl {A : Type} (m : M A) : refines m m.
Proof. intros i r i' Hm _. exact Hm. Qed.

Lemma refines_bind {A B : Type} (m m' : M A) (k k' : A -> M B) :
  refines m m' -> (forall a, refines (k a) (k' a)) -> refines (bind m k) (bind m' k').
Proof.
  intros Hm Hk i r i' Hb Hr. unfold bind in *.
  destruct (m i) as [[a | e |] i1] eqn:E.
  - rewrite (Hm _ _ _ E) by discriminate. apply Hk; assumption.
  - rewrite (Hm _ _ _ E) by discriminate. exact Hb.
  - inversion Hb; subst. contradiction.
Qed.

Lemma refines_out_of_fuel {A : Type} (m' : M A) : refines (fun i => (OutOfFuel, i)) m'.
Proof. intros i r i' E Hr. inversion E; subst. contradiction. Qed.

(** Closes a refinement between two computations of the same shape. *)
Ltac refinement :=
  repeat first
    [ apply refines_refl
    | assumption
    | apply refines_out_of_fuel
    | apply refines_bind; [| intros ?]
    | match goal with
      | H : forall n, refines (?v n) (?v' n) |- refines (?v _) (?v' _) => apply H
      | |- refines (if ?b then _ else _) (if ?b then _ else _) => destruct b
      | |- refines (match ?x with _ => _ end) (match ?x with _ => _ end) => destruct x
      end ].

Section Fuel.

Variable H : Host.
Variables v v' : option node -> M value.
Hypothesis Hv : forall n, refines (v n) (v' n).

Lemma for_each_refines statements : refines (for_each v statements) (for_each v' statements).
Proof. induction statements as [| st rest IH]; simpl; refinement. Qed.

Lemma visit_arguments_refines arguments :
  refines (visit_arguments v arguments) (visit_arguments v' arguments).
Proof. induction arguments as [| a rest IH]; simpl; refinement. Qed.

Lemma executeBlock_refines statements env :
  refines (executeBlock v statements env) (executeBlock v' statements env).
Proof.
  intros i r i' E Hr. unfold executeBlock in *.
  destruct (for_each v statements _) as [r0 i0] eqn:E0. inversion E; subst.
  rewrite (for_each_refines _ _ _ _ E0 Hr). reflexivity.
Qed.

Lemma call_refines c args : refines (call H v c args) (call H v' c args).
Proof.
  destruct c as [name a | id [] closure]; try apply refines_refl.
  intros i r i' E Hr. cbn [call] in *.
  destruct (Env.create _ _) as [env h].
  destruct (executeBlock v body env _) as [[u | e |] i0] eqn:E0.
  - rewrite (executeBlock_refines _ _ _ _ _ E0) by discriminate. exact E.
  - rewrite (executeBlock_refines _ _ _ _ _ E0) by discriminate. exact E.
  - inversion E; subst. contradiction.
Qed.

Lemma while_loop_refines test body :
  forall n, refines (while_loop v n test body) (while_loop v' (S n) test body).
Proof.
  induction n as [| n IH]; [apply refines_out_of_fuel |].
  change (while_loop v (S n) test body)
    with (do t <- v (Some test);
          if ES.ToBoolean t then do _ <- v (Some body); while_loop v n test body
          else ret tt).
  change (while_loop v' (S (S n)) test body)
    with (do t <- v' (Some test);
          if ES.ToBoolean t then do _ <- v' (Some body); while_loop v' (S n) test body
          else ret tt).
  refinement.
Qed.

Lemma for_loop_refines test update body :
  forall n, refines (for_loop v n test update body) (for_loop v' (S n) test update body).
Proof.
  induction n as [| n IH]; [apply refines_out_of_fuel |].
  change (for_loop v (S n) test update body)
    with (do t <- v test;
          if ES.ToBoolean t then
            do _ <- v (Some body); do _ <- v update; for_loop v n test update body
          else ret tt).
  change (for_loop v' (S (S n)) test update body)
    with (do t <- v' test;
          if ES.ToBoolean t then
            do _ <- v' (Some body); do _ <- v' update; for_loop v' (S n) test update body
          else ret tt).
  refinement.
Qed.

Lemma forever_refines body :
  forall n, refines (forever v n body) (forever v' (S n) body).
Proof.
  induction n as [| n IH]; [apply refines_out_of_fuel |].
  change (forever v (S n) body) with (do _ <- v (Some body); forever v n body).
  change (forever v' (S (S n)) body) with (do _ <- v' (Some body); forever v' (S n) body).
  refinement.
Qed.

Lemma dispatch_refines bound n :
  refines (dispatch H v bound n) (dispatch H v' (S bound) n).
Proof.
  pose proof for_each_refines. pose proof visit_arguments_refines.
  pose proof executeBlock_refines. pose proof call_refines.
  pose proof while_loop_refines. pose proof for_loop_refines. pose proof forever_refines.
  destruct n as [[] |]; cbn [dispatch];
    unfold visitExpression, visitIfStatement, visitWhileStatement, visitForStatement,
      visitVariableStatement, visitBlockStatement, visitCallExpression,
      visitUnaryExpression, visitBinaryExpression, visitLogicalExpression,
      visitAssignmentExpression, visitFunctionDeclaration, visitReturnStatement,
      visitProgram, visitLiterals, visitIdentifier;
    refinement; auto.
Qed.

End Fuel.

Lemma visit_fuel_S (H : Host) fuel : forall n, refines (visit H fuel n) (visit H (S fuel) n).
Proof.
  induction fuel as [| fuel IH]; intros n; [apply refines_out_of_fuel |].
  apply dispatch_refines. exact IH.
Qed.

(** An evaluation that ends within [fuel] ends the same way within any
    larger fuel. *)
Lemma visit_fuel_le (H : Host) fuel fuel' n i r i' :
  (fuel <= fuel')%nat -> visit H fuel n i = (r, i') -> r <> OutOfFuel ->
  visit H fuel' n i = (r, i').
Proof.
  induction 1 as [| fuel' _ IH]; intros E Hr; [exact E |].
  apply visit_fuel_S; [apply IH; assumption | exact Hr].
Qed.

(** What a sample run ends with within its fuel, it ends with for any
    larger fuel. *)
Lemma run_enough program k :
  fst (run program) <> OutOfFuel ->
  execute bare_host (30 + k) program fresh = run program.
Proof.
  intros Hr. unfold run, execute in *.
  destruct (visit bare_host 30 (Some program) fresh) as [r i] eqn:E.
  apply (visit_fuel_le bare_host 30); [lia | exact E | exact Hr].
Qed.

(** Runs the sample program of a goal: the run is computed, and the result
    for larger fuels follows from it. *)
Ltac by_run k :=
  rewrite ?(run_enough _ k) by (vm_compute; discriminate);
  repeat split; vm_compute; reflexivity.

(** ** Environments *)

Lemma Env_add_length env name v h : List.length (Env.add env name v h) = List.length h.
Proof.
  unfold Env.add. destruct (h !! env); [apply length_insert | reflexivity].
Qed.

(** The scope a name resolves to holds the name. *)
Lemma Env_resolve_Some fuel h name :
  forall env scope, Env.resolve fuel h env name = Some scope ->
  exists e w, h !! scope = Some e /\ Env.record e !! name = Some w.
Proof.
  induction fuel as [| fuel IH]; intros env scope Hr; simpl in Hr; [discriminate |].
  destruct (h !! env) as [e |] eqn:He; [| discriminate].
  destruct (Env.record e !! name) as [w |] eqn:Hw.
  - inversion Hr; subst. eauto.
  - destruct (Env.parent e) as [p |]; [| discriminate]. eapply IH. exact Hr.
Qed.

(** Writing a name into a scope that already holds it changes no
    resolution. *)
Lemma Env_resolve_add h scope e w x v :
  h !! scope = Some e -> Env.record e !! x = Some w ->
  forall fuel env name,
  Env.resolve fuel (Env.add scope x v h) env name = Env.resolve fuel h env name.
Proof.
  intros He Hw fuel. induction fuel as [| fuel IH]; intros env name; simpl; [reflexivity |].
  unfold Env.add at 1. rewrite He.
  destruct (decide (env = scope)) as [-> | Hne].
  - rewrite list_lookup_insert_eq by (eapply lookup_lt_Some; exact He).
    rewrite He. cbn [Env.record Env.parent].
    destruct (decide (name = x)) as [-> | Hx].
    + rewrite lookup_insert_eq, Hw. reflexivity.
    + rewrite lookup_insert_ne by congruence.
      destruct (Env.record e !! name); [reflexivity |].
      destruct (Env.parent e); [| reflexivity].
      rewrite <- IH. unfold Env.add. rewrite He. reflexivity.
  - rewrite list_lookup_insert_ne by congruence.
    destruct (h !! env) as [e' |]; [| reflexivity].
    destruct (Env.record e' !! name); [reflexivity |].
    destruct (Env.parent e'); [| reflexivity].
    rewrite <- IH. unfold Env.add. rewrite He. reflexivity.
Qed.

(** In a store whose back-references point backwards, the walk from [env]
    needs no more fuel than [env + 1] ... *)
Lemma Env_resolve_fuel h name :
  Env.well_formed h ->
  forall fuel env fuel', (env < fuel)%nat -> (env < fuel')%nat ->
  Env.resolve fuel h env name = Env.resolve fuel' h env name.
Proof.
  intros Hwf. induction fuel as [| fuel IH]; intros env fuel' Hlt Hlt'; [lia |].
  destruct fuel' as [| fuel']; [lia |]. simpl.
  destruct (h !! env) as [e |] eqn:He; [| reflexivity].
  destruct (Env.record e !! name); [reflexivity |].
  destruct (Env.parent e) as [p |] eqn:Hp; [| reflexivity].
  pose proof (Hwf _ _ _ He Hp). apply IH; lia.
Qed.

(** ... so the number of environments, which [get] and [assign] give it, is
    enough: more fuel finds the same scope. *)
Lemma Env_resolve_enough h name env fuel :
  Env.well_formed h -> (List.length h <= fuel)%nat ->
  Env.resolve fuel h env name = Env.resolve (List.length h) h env name.
Proof.
  intros Hwf Hle. destruct (h !! env) as [e |] eqn:He.
  - pose proof (lookup_lt_Some _ _ _ He). apply Env_resolve_fuel; [exact Hwf | lia | lia].
  - destruct fuel as [| fuel], (List.length h) as [| n]; simpl; rewrite ?He;
      first [reflexivity | lia].
Qed.

Lemma Env_well_formed_create parent h :
  Env.well_formed h ->
  (forall p, parent = Some p -> (p < List.length h)%nat) ->
  Env.well_formed (snd (Env.create parent h)).
Proof.
  intros Hwf Hp env e p. cbn [Env.create snd]. intros He Hpar.
  destruct (decide (env < List.length h)%nat) as [Hlt | Hge].
  - rewrite lookup_app_l in He by exact Hlt. eapply Hwf; eassumption.
  - rewrite lookup_app_r in He by lia.
    destruct (env - List.length h)%nat as [| k] eqn:Hk; [| destruct k; discriminate].
    inversion He; subst. cbn [Env.parent] in Hpar. apply Hp in Hpar. lia.
Qed.

Lemma Env_well_formed_add env name v h :
  Env.well_formed h -> Env.well_formed (Env.add env name v h).
Proof.
  intros Hwf env' e p. unfold Env.add.
  destruct (h !! env) as [e0 |] eqn:He0; [| apply Hwf].
  destruct (decide (env' = env)) as [-> | Hne].
  - rewrite list_lookup_insert_eq by (eapply lookup_lt_Some; exact He0).
    intros He Hpar. inversion He; subst. cbn [Env.parent] in Hpar.
    eapply Hwf; eassumption.
  - rewrite list_lookup_insert_ne by congruence. apply Hwf.
Qed.

(** [assign] succeeds on a name that is bound, and [get] then reads the
    assigned value. *)
Lemma Env_assign_lookup h env x old v :
  Env.lookup h env x = Some old ->
  exists h', Env.assign h env x v = (Normal tt, h') /\ Env.lookup h' env x = Some v.
Proof.
  unfold Env.lookup, Env.assign. intros Hl.
  destruct (Env.resolve (List.length h) h env x) as [scope |] eqn:Hr; [| discriminate].
  destruct (Env_resolve_Some _ _ _ _ _ Hr) as (e & w & He & Hw).
  eexists. split; [reflexivity |].
  rewrite Env_add_length, (Env_resolve_add _ _ _ _ _ _ He Hw), Hr.
  unfold Env.add. rewrite He.
  rewrite list_lookup_insert_eq by (eapply lookup_lt_Some; exact He).
  cbn [Env.record]. apply lookup_insert_eq.
Qed.

Lemma falsy_ToBoolean v : falsy v <-> ES.ToBoolean v = false.
Proof.
  unfold falsy. split.
  - intros [-> | [-> | [-> | [-> | (n & -> & Hn)]]]]; try reflexivity.
    simpl. apply negb_false_iff, orb_true_iff. exact Hn.
  - destruct v as [| | [|] | n | s | c]; simpl; intros Hb; try discriminate; auto.
    + do 4 right. exists n. split; [reflexivity |].
      apply orb_true_iff, negb_false_iff. exact Hb.
    + do 3 right. left. f_equal.
      apply negb_false_iff in Hb. apply String.eqb_eq in Hb. exact Hb.
Qed.

Section Properties.

Variable H : Host.

(** ** Binary expressions *)

Lemma visit_BinaryExpression fuel op l r :
  visit H (S fuel) (Some (BinaryExpression op l r))
  = (do a <- visit H fuel (Some l);
     do b <- visit H fuel (Some r);
     lift (binaryOperation H op a b)).
Proof. reflexivity. Qed.

Lemma visit_BinaryExpression_values fuel op left right i i1 i2 l r :
  visit H fuel (Some left) i = (Normal l, i1) ->
  visit H fuel (Some right) i1 = (Normal r, i2) ->
  visit H (S fuel) (Some (BinaryExpression op left right)) i
  = (binaryOperation H op l r, i2).
Proof.
  intros Hl Hr. rewrite visit_BinaryExpression.
  rewrite (bind_Normal _ _ _ _ _ Hl), (bind_Normal _ _ _ _ _ Hr). reflexivity.
Qed.

(** C8: once both operands of a BinaryExpression are evaluated, [+] yields the
    sum of two numbers and the concatenation of two strings, and on any other
    pair of operands throws the RuntimeError on mismatched types, whose
    message is [Runtime: Mismatched type, cannot "t" + "u"] for the type
    names [t] and [u] of the operands, and so is not the error on operands
    that are no numbers. Each of [-], [*], [/], [>], [<], [>=], [<=] yields
    its value on two numbers, and throws the RuntimeError [Operands must be
    numbers.] otherwise. *)
Theorem C8_binary_operand_types fuel left right i i1 i2 l r :
  visit H fuel (Some left) i = (Normal l, i1) ->
  visit H fuel (Some right) i1 = (Normal r, i2) ->
  let result op := visit H (S fuel) (Some (BinaryExpression op left right)) i in
  let name v := match v with
                | VUndefined => "undefined"
                | VBoolean _ => "boolean"
                | VNumber _ => "number"
                | VString _ => "string"
                | VNull | VCallable _ => "object"
                end in
  let quoted s := String "034" (s ++ String "034" EmptyString) in
  (forall a b, l = VNumber a -> r = VNumber b ->
     result "+" = (Normal (VNumber (a + b)%float), i2))
  /\ (forall a b, l = VString a -> r = VString b ->
        result "+" = (Normal (VString (a ++ b)), i2))
  /\ (is_number l && is_number r = false -> is_string l && is_string r = false ->
        result "+"
        = (Throw (RuntimeError ("Runtime: Mismatched type, cannot " ++ quoted (name l)
                                ++ " + " ++ quoted (name r))), i2))
  /\ (forall a b, l = VNumber a -> r = VNumber b ->
        result "-" = (Normal (VNumber (a - b)%float), i2)
        /\ result "*" = (Normal (VNumber (a * b)%float), i2)
        /\ result "/" = (Normal (VNumber (a / b)%float), i2)
        /\ result ">" = (Normal (VBoolean (b <? a)%float), i2)
        /\ result "<" = (Normal (VBoolean (a <? b)%float), i2)
        /\ result ">=" = (Normal (VBoolean (b <=? a)%float), i2)
        /\ result "<=" = (Normal (VBoolean (a <=? b)%float), i2))
  /\ (forall op, In op numeric_operators ->
        (is_number l && is_number r = true -> exists v, result op = (Normal v, i2))
        /\ (is_number l && is_number r = false ->
              result op = (Throw (RuntimeError "Operands must be numbers."), i2))).
Proof.
  intros Hl Hr result name quoted. subst result name quoted. cbv beta.
  pose proof (visit_BinaryExpression_values fuel) as E.
  split_and!.
  - intros a b -> ->. rewrite (E _ _ _ _ _ _ _ _ Hl Hr). reflexivity.
  - intros a b -> ->. rewrite (E _ _ _ _ _ _ _ _ Hl Hr). reflexivity.
  - intros Hn Hs. rewrite (E _ _ _ _ _ _ _ _ Hl Hr).
    destruct l, r; try discriminate; reflexivity.
  - intros a b -> ->. rewrite !(E _ _ _ _ _ _ _ _ Hl Hr). split_and!; reflexivity.
  - intros op Hop. rewrite (E _ _ _ _ _ _ _ _ Hl Hr).
    unfold numeric_operators in Hop. simpl in Hop.
    split; intros Hn.
    + destruct l, r; try discriminate.
      repeat (destruct Hop as [<- | Hop]; [eexists; reflexivity |]). contradiction.
    + repeat (destruct Hop as [<- | Hop];
              [destruct l, r; try discriminate; reflexivity |]).
      contradiction.
Qed.

(** ** Calls *)

Lemma visit_CallExpression fuel callee arguments :
  visit H (S fuel) (Some (CallExpression callee arguments))
  = (do c <- visit H fuel (Some callee);
     do p <- lift (prototype c);
     if instanceof_CallableFunction (VBoolean (negb (ES.ToBoolean p))) then
       throw (RuntimeError "Can only call functions and classes")
     else
       do args <- visit_arguments (visit H fuel) arguments;
       match c with
       | VCallable f =>
           if arity_mismatch (List.length args) (arity f) then
             throw (RuntimeError (arity_message (arity f) (List.length args)))
           else call H (visit H fuel) f args
       | _ => throw TypeError
       end).
Proof. reflexivity. Qed.

(** As many values as there are argument expressions. *)
Lemma visit_arguments_length (v : option node -> M value) arguments :
  forall i vs i', visit_arguments v arguments i = (Normal vs, i') ->
  List.length vs = List.length arguments.
Proof.
  induction arguments as [| a rest IH]; intros i vs i' Hv; simpl in Hv.
  - inversion Hv. reflexivity.
  - unfold bind in Hv. destruct (v (Some a) i) as [[x | e |] i1]; try discriminate.
    destruct (visit_arguments v rest i1) as [[xs | e |] i2] eqn:Hrest; try discriminate.
    inversion Hv; subst. simpl. f_equal. eapply IH. exact Hrest.
Qed.

(** What a call does once its callee evaluated to the callable [f] and its
    arguments to [vs]. *)
Lemma visit_CallExpression_callable fuel callee arguments i i1 i2 f vs :
  visit H fuel (Some callee) i = (Normal (VCallable f), i1) ->
  visit_arguments (visit H fuel) arguments i1 = (Normal vs, i2) ->
  visit H (S fuel) (Some (CallExpression callee arguments)) i
  = if arity_mismatch (List.length arguments) (arity f)
    then (Throw (RuntimeError (arity_message (arity f) (List.length arguments))), i2)
    else call H (visit H fuel) f vs i2.
Proof.
  intros Hc Hargs. rewrite visit_CallExpression.
  rewrite (bind_Normal _ _ _ _ _ Hc).
  unfold bind at 1. cbn [lift prototype instanceof_CallableFunction].
  rewrite (bind_Normal _ _ _ _ _ Hargs).
  rewrite (visit_arguments_length _ _ _ _ _ Hargs).
  destruct (arity_mismatch _ _); reflexivity.
Qed.

(** What a call does once its callee evaluated to the callable [f]: its
    arguments are evaluated first, and what they throw is what the call
    throws. *)
Lemma visit_CallExpression_arguments fuel callee arguments i i1 f :
  visit H fuel (Some callee) i = (Normal (VCallable f), i1) ->
  visit H (S fuel) (Some (CallExpression callee arguments)) i
  = (do args <- visit_arguments (visit H fuel) arguments;
     if arity_mismatch (List.length args) (arity f) then
       throw (RuntimeError (arity_message (arity f) (List.length args)))
     else call H (visit H fuel) f args) i1.
Proof.
  intros Hc. rewrite visit_CallExpression, (bind_Normal _ _ _ _ _ Hc). reflexivity.
Qed.

(** C7 (as amended): once the callee of a CallExpression evaluated to a
    callable, the arguments are evaluated first, and what one of them throws
    is what the call throws, whatever their number. Once they all evaluated
    to values, a callable of finite arity [n] makes the call throw the
    RuntimeError [Expected n arguments but got m.] when the number [m] of
    arguments differs from [n], and is invoked on the argument values when it
    equals [n]; a callable of unbounded arity is invoked whatever their
    number. *)
Theorem C7_arity_check fuel callee arguments i i1 f :
  visit H fuel (Some callee) i = (Normal (VCallable f), i1) ->
  let result := visit H (S fuel) (Some (CallExpression callee arguments)) i in
  (forall e i2,
     visit_arguments (visit H fuel) arguments i1 = (Throw e, i2) -> result = (Throw e, i2))
  /\ (forall vs i2,
        visit_arguments (visit H fuel) arguments i1 = (Normal vs, i2) ->
        let invoked := call H (visit H fuel) f vs i2 in
        (forall n, arity f = Finite n ->
           (List.length arguments <> n ->
              result = (Throw (RuntimeError
                                 ("Expected " ++ Num.NumberToString (Num.of_nat n)
                                  ++ " arguments but got "
                                  ++ Num.NumberToString (Num.of_nat (List.length arguments))
                                  ++ ".")), i2))
           /\ (List.length arguments = n -> result = invoked))
        /\ (arity f = Unbounded -> result = invoked)).
Proof.
  intros Hc result. subst result. split.
  - intros e i2 Hargs. rewrite (visit_CallExpression_arguments _ _ _ _ _ _ Hc).
    apply bind_Throw, Hargs.
  - intros vs i2 Hargs invoked. subst invoked.
    rewrite (visit_CallExpression_callable _ _ _ _ _ _ _ _ Hc Hargs).
    split.
    + intros n Hn. rewrite Hn. simpl. split; intros Hlen.
      * apply Nat.eqb_neq in Hlen. rewrite Hlen. reflexivity.
      * apply Nat.eqb_eq in Hlen. rewrite Hlen. reflexivity.
    + intros Hn. rewrite Hn. reflexivity.
Qed.

(** ** Assignments *)

Lemma visit_AssignmentExpression fuel op x e :
  visit H (S fuel) (Some (AssignmentExpression op x e))
  = (do v <- visit H fuel (Some e);
     do lhs <- environment_get x;
     do r <- lift (assignmentOperation H op lhs v);
     match r with
     | (Some assigned, result) => do _ <- environment_assign x assigned; ret result
     | (None, result) => ret result
     end).
Proof. reflexivity. Qed.

(** An assignment whose operator case assigns [assigned] and returns
    [returned], to a name that resolves to the environment [scope]: the
    value goes into the binding that [scope] holds, and the state is otherwise
    as the right side left it. *)
Lemma visit_AssignmentExpression_stores fuel op x e i i1 v old assigned returned scope t :
  visit H fuel (Some e) i = (Normal v, i1) ->
  Env.resolve (List.length (store i1)) (store i1) (environment i1) x = Some scope ->
  store i1 !! scope = Some t ->
  Env.record t !! x = Some old ->
  assignmentOperation H op old v = Normal (Some assigned, returned) ->
  visit H (S fuel) (Some (AssignmentExpression op x e)) i
  = (Normal returned,
     set_store (<[scope := Env.mk (<[x := assigned]> (Env.record t)) (Env.parent t)]> (store i1))
               i1).
Proof.
  intros He Hres Ht Hold Hop.
  rewrite visit_AssignmentExpression, (bind_Normal _ _ _ _ _ He).
  unfold bind, environment_get, Env.get, Env.lookup, lift, environment_assign, Env.assign.
  rewrite Hres, Ht, Hold, Hop, Hres. unfold Env.add. rewrite Ht. reflexivity.
Qed.

(** C10: once the right side of an assignment to a bound variable [x] is
    evaluated to [v], the variable is read: it holds [old], in the first
    environment [scope] of the chain that holds [x]. The simple assignment
    [x = e] has the value [old] and stores [v] into that binding; the
    compound assignments ([+=] always, [-=], [*=] and [/=] for a number on
    the right) have the updated value, which is also what they store there.
    The store goes into the existing binding and creates none: [scope] holds
    the names it held, with [x] bound anew; every other environment, the
    current one included when it is not [scope], is as it was, and so is the
    rest of the state. *)
Theorem C10_assignment_value fuel x e i i1 v old :
  visit H fuel (Some e) i = (Normal v, i1) ->
  Env.lookup (store i1) (environment i1) x = Some old ->
  let result op := visit H (S fuel) (Some (AssignmentExpression op x e)) i in
  let bound_in i' := Env.lookup (store i') (environment i') x in
  exists scope t,
    Env.resolve (List.length (store i1)) (store i1) (environment i1) x = Some scope
    /\ store i1 !! scope = Some t
    /\ Env.record t !! x = Some old
    /\ let stored w :=
         set_store (<[scope := Env.mk (<[x := w]> (Env.record t)) (Env.parent t)]> (store i1))
                   i1 in
       let updates op new :=
         result op = (Normal new, stored new) /\ bound_in (stored new) = Some new in
       (result "=" = (Normal old, stored v) /\ bound_in (stored v) = Some v)
       /\ updates "+=" (ES.add H old v)
       /\ (forall n, v = VNumber n ->
             updates "-=" (VNumber (ES.ToNumber H old - n)%float)
             /\ updates "*=" (VNumber (ES.ToNumber H old * n)%float)
             /\ updates "/=" (VNumber (ES.ToNumber H old / n)%float))
       /\ (forall w,
             List.length (store (stored w)) = List.length (store i1)
             /\ (forall e', e' <> scope -> store (stored w) !! e' = store i1 !! e')
             /\ (exists t', store (stored w) !! scope = Some t'
                            /\ Env.parent t' = Env.parent t
                            /\ dom (Env.record t') = dom (Env.record t)
                            /\ Env.record t' !! x = Some w
                            /\ forall y, y <> x -> Env.record t' !! y = Env.record t !! y)).
Proof.
  intros He Hold result bound_in. subst result bound_in. cbv beta.
  pose proof Hold as Hl. unfold Env.lookup in Hl.
  destruct (Env.resolve (List.length (store i1)) (store i1) (environment i1) x)
    as [scope |] eqn:Hres; [| discriminate].
  destruct (store i1 !! scope) as [t |] eqn:Ht; [| discriminate].
  exists scope, t. split_and!; [reflexivity | exact Ht | exact Hl |].
  cbv zeta.
  assert (Hbound : forall w,
            Env.lookup
              (store (set_store (<[scope := Env.mk (<[x := w]> (Env.record t)) (Env.parent t)]>
                                   (store i1)) i1))
              (environment (set_store (<[scope := Env.mk (<[x := w]> (Env.record t))
                                                     (Env.parent t)]> (store i1)) i1)) x
            = Some w).
  { intros w. destruct (Env_assign_lookup _ _ _ _ w Hold) as (h' & Ha & Hw).
    unfold Env.assign in Ha. rewrite Hres in Ha. unfold Env.add in Ha. rewrite Ht in Ha.
    inversion Ha; subst h'. exact Hw. }
  pose proof (fun op assigned returned =>
                visit_AssignmentExpression_stores fuel op x e i i1 v old assigned returned
                  scope t He Hres Ht Hl) as Hs.
  split_and!.
  - apply Hs. reflexivity.
  - apply Hbound.
  - apply Hs. reflexivity.
  - apply Hbound.
  - intros n ->. split_and!; first [apply Hs; reflexivity | apply Hbound].
  - intros w. cbn [store set_store]. pose proof (lookup_lt_Some _ _ _ Ht) as Hlt.
    split_and!.
    + apply length_insert.
    + intros e' Hne. apply list_lookup_insert_ne. congruence.
    + eexists. split; [apply list_lookup_insert_eq, Hlt |]. cbn [Env.record Env.parent].
      split_and!.
      * reflexivity.
      * apply dom_insert_lookup_L. eauto.
      * apply lookup_insert_eq.
      * intros y Hy. apply lookup_insert_ne. congruence.
Qed.

(** ** Conditions *)

Lemma visit_IfStatement fuel test consequent alternate :
  visit H (S fuel) (Some (IfStatement test consequent alternate))
  = (do t <- visit H fuel (Some test);
     if ES.ToBoolean t then
       do _ <- visit H fuel (Some consequent); ret VNull
     else
       match alternate with
       | Some a => do _ <- visit H fuel (Some a); ret VNull
       | None => ret VNull
       end).
Proof. reflexivity. Qed.

(** C2 (as amended): once the test of an IfStatement is evaluated, the
    statement runs its alternate (or nothing when it has none) if the test
    value is false, null, undefined, the empty string, a zero or NaN, and its
    consequent on any other value. *)
Theorem C2_if_truthiness fuel test consequent alternate i i1 t :
  visit H fuel (Some test) i = (Normal t, i1) ->
  let result := visit H (S fuel) (Some (IfStatement test consequent alternate)) i in
  (falsy t ->
     result = match alternate with
              | Some a => (do _ <- visit H fuel (Some a); ret VNull) i1
              | None => (Normal VNull, i1)
              end)
  /\ (~ falsy t -> result = (do _ <- visit H fuel (Some consequent); ret VNull) i1).
Proof.
  intros Ht result. subst result.
  rewrite visit_IfStatement, (bind_Normal _ _ _ _ _ Ht).
  split; intros Hf.
  - apply falsy_ToBoolean in Hf. rewrite Hf. destruct alternate; reflexivity.
  - destruct (ES.ToBoolean t) eqn:Hb; [reflexivity |].
    exfalso. apply Hf, falsy_ToBoolean, Hb.
Qed.

(** ** Equality *)

Lemma loose_equal_same_type l r :
  ES.type_of l = ES.type_of r -> ES.loose_equal H l r = ES.strict_equal l r.
Proof.
  destruct l as [| | a | a | a | a], r as [| | b | b | b | b];
    try discriminate; intros _; try reflexivity.
  simpl. destruct a, b; reflexivity.
Qed.

Lemma LE_same x y b :
  ES.type_of x = ES.type_of y -> b = ES.strict_equal x y -> IsLooselyEqual H x y b.
Proof. intros Ht ->. apply LE_same_type, Ht. Qed.

(** What the code computes for [==] is what the standard's comparison
    gives. *)
Lemma loose_equal_IsLooselyEqual x y : IsLooselyEqual H x y (ES.loose_equal H x y).
Proof.
  destruct x as [| | a | n | s | c], y as [| | b | m | t | d]; simpl;
    repeat first
      [ apply LE_same; [reflexivity | try (destruct a, b); reflexivity]
      | exact (LE_null_undefined H)
      | exact (LE_undefined_null H)
      | apply LE_nullish_left; [reflexivity | simpl; tauto]
      | apply LE_nullish_right; [simpl; tauto | reflexivity]
      | apply LE_number_string
      | apply LE_string_number
      | apply LE_boolean_left; [discriminate |]
      | apply LE_boolean_right; [discriminate |]
      | apply LE_primitive_object; [simpl; tauto |]
      | apply LE_object_primitive; [simpl; tauto |] ].
Qed.

(** The standard's comparison gives one result, the one the code computes. *)
Lemma IsLooselyEqual_loose_equal x y b :
  IsLooselyEqual H x y b -> b = ES.loose_equal H x y.
Proof.
  induction 1 as [x y Ht | | | n s b _ IH | s n b _ IH | a y b Hy _ IH | x a b Hx _ IH
                  | x c b Hx _ IH | c y b Hy _ IH | x y Hx Hy | x y Hx Hy].
  - symmetry. apply loose_equal_same_type, Ht.
  - reflexivity.
  - reflexivity.
  - rewrite IH. reflexivity.
  - rewrite IH. reflexivity.
  - rewrite IH. destruct y, a; try reflexivity; contradiction.
  - rewrite IH. destruct x, a; try reflexivity; contradiction.
  - rewrite IH. destruct x; simpl in Hx; destruct Hx; try discriminate; reflexivity.
  - rewrite IH. destruct y; simpl in Hy; destruct Hy; try discriminate; reflexivity.
  - destruct x; try discriminate Hx;
      destruct y; simpl in Hy; decompose [or] Hy; try discriminate; reflexivity.
  - destruct y; try discriminate Hy;
      destruct x; simpl in Hx; decompose [or] Hx; try discriminate; reflexivity.
Qed.

(** C3 (as amended): once both operands are evaluated, [==] yields what the
    comparison of the host language's standard gives for the two values, and
    [!=] its negation; the comparison gives one result for any two values.
    Values of one type are compared as they are, without conversion; [null]
    and [undefined] are equal to each other and to nothing else, without
    conversion either; a number and a string are equal when the number equals
    the string converted to a number, and a boolean is compared as the number
    1 or 0. *)
Theorem C3_loose_equality fuel left right i i1 i2 l r :
  visit H fuel (Some left) i = (Normal l, i1) ->
  visit H fuel (Some right) i1 = (Normal r, i2) ->
  let result op := visit H (S fuel) (Some (BinaryExpression op left right)) i in
  (exists b, IsLooselyEqual H l r b)
  /\ (forall b, IsLooselyEqual H l r b ->
        result "==" = (Normal (VBoolean b), i2)
        /\ result "!=" = (Normal (VBoolean (negb b)), i2))
  /\ (ES.type_of l = ES.type_of r ->
        result "==" = (Normal (VBoolean (ES.strict_equal l r)), i2))
  /\ (nullish l = true \/ nullish r = true ->
        result "==" = (Normal (VBoolean (nullish l && nullish r)), i2))
  /\ (forall n s, l = VNumber n -> r = VString s ->
        result "==" = (Normal (VBoolean (n =? Num.StringToNumber s)%float), i2))
  /\ (forall s n, l = VString s -> r = VNumber n ->
        result "==" = (Normal (VBoolean (Num.StringToNumber s =? n)%float), i2))
  /\ (forall a n, l = VBoolean a -> r = VNumber n ->
        result "==" = (Normal (VBoolean ((if a then 1 else 0) =? n)%float), i2))
  /\ (forall n a, l = VNumber n -> r = VBoolean a ->
        result "==" = (Normal (VBoolean (n =? (if a then 1 else 0))%float), i2)).
Proof.
  intros Hl Hr result. subst result. cbv beta.
  rewrite !(visit_BinaryExpression_values _ _ _ _ _ _ _ _ _ Hl Hr).
  assert (E : binaryOperation H "==" l r = Normal (VBoolean (ES.loose_equal H l r)))
    by reflexivity.
  assert (E' : binaryOperation H "!=" l r = Normal (VBoolean (negb (ES.loose_equal H l r))))
    by reflexivity.
  rewrite E, E'. split_and!.
  - eexists. apply loose_equal_IsLooselyEqual.
  - intros b Hb. apply IsLooselyEqual_loose_equal in Hb. subst b. split; reflexivity.
  - intros Ht. rewrite (loose_equal_same_type _ _ Ht). reflexivity.
  - intros Hn. destruct l, r; simpl in Hn; destruct Hn; try discriminate; reflexivity.
  - intros n s -> ->. reflexivity.
  - intros s n -> ->. reflexivity.
  - intros a n -> ->. destruct a; reflexivity.
  - intros n a -> ->. destruct a; reflexivity.
Qed.

(** ** Logical expressions *)

Lemma visit_LogicalExpression fuel op l r :
  visit H (S fuel) (Some (LogicalExpression op l r))
  = (do a <- visit H fuel (Some l);
     do b <- visit H fuel (Some r);
     lift (logicalOperation op a b)).
Proof. reflexivity. Qed.

(** X28: the right operand of a logical expression is evaluated whatever the
    left operand evaluated to: when it throws, so does the logical
    expression. *)
Lemma logical_right_operand_throws fuel op left right i i1 i2 l e :
  visit H fuel (Some left) i = (Normal l, i1) ->
  visit H fuel (Some right) i1 = (Throw e, i2) ->
  visit H (S fuel) (Some (LogicalExpression op left right)) i = (Throw e, i2).
Proof.
  intros Hl Hr. rewrite visit_LogicalExpression.
  rewrite (bind_Normal _ _ _ _ _ Hl). apply bind_Throw. exact Hr.
Qed.

(** X27: when both operands evaluate, the result is the value of one of them:
    the left one when it decides the outcome, the right one otherwise. *)
Lemma logical_value fuel left right i i1 i2 l r :
  visit H fuel (Some left) i = (Normal l, i1) ->
  visit H fuel (Some right) i1 = (Normal r, i2) ->
  visit H (S fuel) (Some (LogicalExpression "&&" left right)) i
  = (Normal (if ES.ToBoolean l then r else l), i2)
  /\ visit H (S fuel) (Some (LogicalExpression "||" left right)) i
     = (Normal (if ES.ToBoolean l then l else r), i2).
Proof.
  intros Hl Hr. rewrite !visit_LogicalExpression.
  rewrite !(bind_Normal _ _ _ _ _ Hl), !(bind_Normal _ _ _ _ _ Hr).
  split; reflexivity.
Qed.

(** ** Variable statements *)

(** Only the first declarator of a variable statement is looked at. *)
Lemma visit_VariableStatement_first fuel d rest :
  visit H (S fuel) (Some (VariableStatement (d :: rest)))
  = visit H (S fuel) (Some (VariableStatement [d])).
Proof. destruct d. reflexivity. Qed.

(** ** Loops *)

(** X18: a [for] statement without a test, with an initializer or an update,
    evaluates its initializer and stops: its body is not visited. *)
Lemma for_without_test fuel init update body i :
  (init, update) <> (None, None) ->
  visit H (S (S fuel)) (Some (ForStatement init None update body)) i
  = (do _ <- visit H (S fuel) init; ret VNull) i.
Proof.
  intros Hne.
  assert (E : visit H (S (S fuel)) (Some (ForStatement init None update body)) i
              = (do _ <- visit H (S fuel) init;
                 do _ <- for_loop (visit H (S fuel)) (S fuel) None update body;
                 ret VNull) i).
  { destruct init, update; try reflexivity. contradiction. }
  rewrite E. unfold bind.
  destruct (visit H (S fuel) init i) as [[v | e |] i']; reflexivity.
Qed.

(** The loop of a [for] statement with no clause at all never ends
    normally. *)
Lemma forever_not_Normal (v : option node -> M value) body :
  forall n i w i', forever v n body i <> (Normal w, i').
Proof.
  induction n as [| n IH]; intros i w i'; simpl; [discriminate |].
  unfold bind. destruct (v (Some body) i) as [[x | e |] i1]; try discriminate.
  apply IH.
Qed.

(** ** Blocks *)

(** However the statements of a block end, the environment that was
    current before the block is current after it. *)
Lemma executeBlock_restores_environment (v : option node -> M value) statements env i :
  environment (snd (executeBlock v statements env i)) = environment i.
Proof.
  unfold executeBlock. destruct (for_each v statements _) as [r i']. reflexivity.
Qed.

(** ** Calls of what is no callable *)


End Properties.

(** ** The properties on sample programs *)

(** The recursive factorial of 5 is 120. *)
Theorem recursive_factorial_of_five :
  forall k,
  let after := execute bare_host (30 + k) factorial_program fresh in
  fst after = Normal VNull /\ bound_to "result" (snd after) = Some (VNumber 120).
Proof. intros k after. subst after. by_run k. Qed.

(** The iterative factorial of 5 is 120 as well. *)
Theorem iterative_factorial_of_five :
  forall k,
  let after := execute bare_host (30 + k) iterative_factorial_program fresh in
  fst after = Normal VNull /\ bound_to "result" (snd after) = Some (VNumber 120).
Proof. intros k after. subst after. by_run k. Qed.

(** A name declared in a block is not visible after the block. *)
Theorem block_locals_do_not_escape :
  forall k,
  fst (execute bare_host (30 + k) block_then_use fresh)
  = Throw (RuntimeError "UndefinedVariable").
Proof. intros k. by_run k. Qed.

(** [false && 1] is [false] and [1 && "a"] is ["a"]; [0 || "a"] is ["a"]. *)
Lemma logical_value_witness :
  run (LogicalExpression "&&" one_equals_two (NumericLiteral 1))
  = (Normal (VBoolean false), fresh)
  /\ run (LogicalExpression "&&" (NumericLiteral 1) (StringLiteral "a"))
     = (Normal (VString "a"), fresh)
  /\ run (LogicalExpression "||" (NumericLiteral 0) (StringLiteral "a"))
     = (Normal (VString "a"), fresh).
Proof.
  split; [| split].
  - exact (proj1 (logical_value bare_host 29 one_equals_two (NumericLiteral 1)
                    fresh fresh fresh (VBoolean false) (VNumber 1) eq_refl eq_refl)).
  - exact (proj1 (logical_value bare_host 29 (NumericLiteral 1) (StringLiteral "a")
                    fresh fresh fresh (VNumber 1) (VString "a") eq_refl eq_refl)).
  - exact (proj2 (logical_value bare_host 29 (NumericLiteral 0) (StringLiteral "a")
                    fresh fresh fresh (VNumber 0) (VString "a") eq_refl eq_refl)).
Defined.

(** ["a" + "b"] is ["ab"]; [1 + "a"] throws the error on mismatched types,
    with the message spelled out, and [1 - "a"] the error on operands that
    are no numbers; [7 - 2] is 5. *)
Lemma C8_binary_operand_types_witness :
  run (BinaryExpression "+" (StringLiteral "a") (StringLiteral "b"))
  = (Normal (VString "ab"), fresh)
  /\ run (BinaryExpression "+" (NumericLiteral 1) (StringLiteral "a"))
     = (Throw (RuntimeError
                 ("Runtime: Mismatched type, cannot "
                  ++ String "034" ("number" ++ String "034" (" + "
                  ++ String "034" ("string" ++ String "034" EmptyString))))), fresh)
  /\ run one_minus_a = (Throw (RuntimeError "Operands must be numbers."), fresh)
  /\ run (BinaryExpression "-" (NumericLiteral 7) (NumericLiteral 2))
     = (Normal (VNumber 5), fresh).
Proof.
  split_and!.
  - pose proof (C8_binary_operand_types bare_host 29 (StringLiteral "a") (StringLiteral "b")
                  fresh fresh fresh (VString "a") (VString "b") eq_refl eq_refl) as W.
    cbv zeta in W. destruct W as (_ & W & _). exact (W "a" "b" eq_refl eq_refl).
  - pose proof (C8_binary_operand_types bare_host 29 (NumericLiteral 1) (StringLiteral "a")
                  fresh fresh fresh (VNumber 1) (VString "a") eq_refl eq_refl) as W.
    cbv zeta in W. destruct W as (_ & _ & W & _). exact (W eq_refl eq_refl).
  - pose proof (C8_binary_operand_types bare_host 29 (NumericLiteral 1) (StringLiteral "a")
                  fresh fresh fresh (VNumber 1) (VString "a") eq_refl eq_refl) as W.
    cbv zeta in W. destruct W as (_ & _ & _ & _ & W).
    destruct (W "-" (or_introl eq_refl)) as [_ W']. exact (W' eq_refl).
  - pose proof (C8_binary_operand_types bare_host 29 (NumericLiteral 7) (NumericLiteral 2)
                  fresh fresh fresh (VNumber 7) (VNumber 2) eq_refl eq_refl) as W.
    cbv zeta in W. destruct W as (_ & _ & _ & W & _).
    destruct (W 7%float 2%float eq_refl eq_refl) as (W' & _). exact W'.
Defined.

(** C7, the claim as stated fails: the function [f] has one parameter and is
    called with two arguments, of which the first throws; the call ends in
    the error of the argument, not in the error on the number of arguments,
    which it would end in were the first argument a number. *)
Lemma C7_counterexample :
  arity f_object = Finite 1
  /\ visit bare_host 29 (Some (Identifier "f")) with_f = (Normal (VCallable f_object), with_f)
  /\ fst (execute bare_host 30
            (CallExpression (Identifier "f") [one_minus_a; NumericLiteral 2]) with_f)
     = Throw (RuntimeError "Operands must be numbers.")
  /\ fst (execute bare_host 30
            (CallExpression (Identifier "f") [NumericLiteral 1; NumericLiteral 2]) with_f)
     = Throw (RuntimeError "Expected 1 arguments but got 2.").
Proof. repeat split; vm_compute; reflexivity. Qed.

(** A function of one parameter called with no argument and with two throws
    the arity error, and is invoked when called with one; called with an
    argument that throws, it throws what the argument throws. *)
Lemma C7_arity_check_witness :
  fst (execute bare_host 30 (CallExpression (Identifier "f") []) with_f)
  = Throw (RuntimeError "Expected 1 arguments but got 0.")
  /\ fst (execute bare_host 30
            (CallExpression (Identifier "f") [NumericLiteral 1; NumericLiteral 2]) with_f)
     = Throw (RuntimeError "Expected 1 arguments but got 2.")
  /\ fst (execute bare_host 30 (CallExpression (Identifier "f") [NumericLiteral 1]) with_f)
     = Normal VNull
  /\ fst (execute bare_host 30
            (CallExpression (Identifier "f") [one_minus_a; NumericLiteral 2]) with_f)
     = Throw (RuntimeError "Operands must be numbers.").
Proof.
  assert (Hf : visit bare_host 29 (Some (Identifier "f")) with_f
               = (Normal (VCallable f_object), with_f)) by (vm_compute; reflexivity).
  split_and!.
  - destruct (C7_arity_check bare_host 29 (Identifier "f") [] with_f with_f f_object Hf)
      as [_ W].
    destruct (W [] with_f eq_refl) as [W' _]. destruct (W' 1%nat eq_refl) as [W'' _].
    unfold execute. rewrite W'' by discriminate. vm_compute. reflexivity.
  - destruct (C7_arity_check bare_host 29 (Identifier "f")
                [NumericLiteral 1; NumericLiteral 2] with_f with_f f_object Hf) as [_ W].
    destruct (W [VNumber 1; VNumber 2] with_f eq_refl) as [W' _].
    destruct (W' 1%nat eq_refl) as [W'' _].
    unfold execute. rewrite W'' by discriminate. vm_compute. reflexivity.
  - destruct (C7_arity_check bare_host 29 (Identifier "f") [NumericLiteral 1]
                with_f with_f f_object Hf) as [_ W].
    destruct (W [VNumber 1] with_f eq_refl) as [W' _]. destruct (W' 1%nat eq_refl) as [_ W''].
    unfold execute. rewrite W'' by reflexivity. vm_compute. reflexivity.
  - destruct (C7_arity_check bare_host 29 (Identifier "f")
                [one_minus_a; NumericLiteral 2] with_f with_f f_object Hf) as [W _].
    unfold execute.
    rewrite (W (RuntimeError "Operands must be numbers.") with_f
               ltac:(vm_compute; reflexivity)).
    reflexivity.
Defined.

(** Inside a block, with [x] bound to 1 in the enclosing environment,
    [x = 7] has the value 1 and stores 7 into the binding of the enclosing
    environment: the environment of the block holds no name afterwards, as
    before. With [x] bound to 1 in the current environment, [x += 7] has the
    value 8. *)
Lemma C10_assignment_value_witness :
  (exists i',
      execute bare_host 30 (AssignmentExpression "=" "x" (NumericLiteral 7)) with_x_in_block
      = (Normal (VNumber 1), i')
      /\ bound_to "x" i' = Some (VNumber 7)
      /\ (exists t', store i' !! 0%nat = Some t' /\ Env.record t' !! "x" = Some (VNumber 7))
      /\ store i' !! 1%nat = store with_x_in_block !! 1%nat
      /\ store with_x_in_block !! 1%nat = Some (Env.mk ∅ (Some 0%nat)))
  /\ (exists i',
         execute bare_host 30 (AssignmentExpression "+=" "x" (NumericLiteral 7)) with_x
         = (Normal (VNumber 8), i')
         /\ bound_to "x" i' = Some (VNumber 8)).
Proof.
  split.
  - destruct (C10_assignment_value bare_host 29 "x" (NumericLiteral 7)
                with_x_in_block with_x_in_block (VNumber 7) (VNumber 1) eq_refl eq_refl)
      as (scope & t & Hres & Ht & _ & W).
    assert (Hscope : scope = 0%nat).
    { vm_compute in Hres. inversion Hres. reflexivity. }
    subst scope. cbv zeta in W. destruct W as ((W1 & W2) & _ & _ & W4).
    destruct (W4 (VNumber 7)) as (_ & Hother & t' & Ht' & _ & _ & Hx & _).
    eexists. split_and!.
    + exact W1.
    + exact W2.
    + exists t'. split; [exact Ht' | exact Hx].
    + apply Hother. discriminate.
    + reflexivity.
  - destruct (C10_assignment_value bare_host 29 "x" (NumericLiteral 7)
                with_x with_x (VNumber 7) (VNumber 1) eq_refl eq_refl)
      as (scope & t & _ & _ & _ & W).
    cbv zeta in W. destruct W as (_ & (W1 & W2) & _).
    eexists. split; [exact W1 | exact W2].
Defined.

(** C2, the claim as stated fails: a test that evaluates to numeric zero or
    to the empty string runs the alternate, not the consequent. *)
Lemma C2_counterexample :
  fst (run (branch_taken (NumericLiteral 0))) = Normal VNull
  /\ bound_to "taken" (snd (run (branch_taken (NumericLiteral 0)))) = Some (VString "alternate")
  /\ fst (run (branch_taken (StringLiteral EmptyString))) = Normal VNull
  /\ bound_to "taken" (snd (run (branch_taken (StringLiteral EmptyString))))
     = Some (VString "alternate").
Proof. repeat split; vm_compute; reflexivity. Qed.

(** With [taken] declared, the statement on the test [0] runs its alternate
    and the statement on the test [1] its consequent. *)
Lemma C2_if_truthiness_witness :
  bound_to "taken" (snd (execute bare_host 30 (if_taken (NumericLiteral 0)) with_taken))
  = Some (VString "alternate")
  /\ bound_to "taken" (snd (execute bare_host 30 (if_taken (NumericLiteral 1)) with_taken))
     = Some (VString "consequent").
Proof.
  split.
  - pose proof (C2_if_truthiness bare_host 29 (NumericLiteral 0)
                  (BlockStatement
                     [ExpressionStatement
                        (AssignmentExpression "=" "taken" (StringLiteral "consequent"))])
                  (Some (BlockStatement
                     [ExpressionStatement
                        (AssignmentExpression "=" "taken" (StringLiteral "alternate"))]))
                  with_taken with_taken (VNumber 0) eq_refl) as W.
    cbv zeta in W. destruct W as [W _].
    unfold execute, if_taken. rewrite W.
    + vm_compute. reflexivity.
    + do 4 right. exists 0%float. split; [reflexivity | left; reflexivity].
  - pose proof (C2_if_truthiness bare_host 29 (NumericLiteral 1)
                  (BlockStatement
                     [ExpressionStatement
                        (AssignmentExpression "=" "taken" (StringLiteral "consequent"))])
                  (Some (BlockStatement
                     [ExpressionStatement
                        (AssignmentExpression "=" "taken" (StringLiteral "alternate"))]))
                  with_taken with_taken (VNumber 1) eq_refl) as W.
    cbv zeta in W. destruct W as [_ W].
    unfold execute, if_taken. rewrite W.
    + vm_compute. reflexivity.
    + intros Hf. apply falsy_ToBoolean in Hf. discriminate Hf.
Defined.

(** C3, the claim as stated fails: the number 1 and the string ["1"] are
    equal under [==], and so are a boolean and the number 1. *)
Lemma C3_counterexample :
  fst (run (BinaryExpression "==" (NumericLiteral 1) (StringLiteral "1")))
  = Normal (VBoolean true)
  /\ fst (run (BinaryExpression "!=" (NumericLiteral 1) (StringLiteral "1")))
     = Normal (VBoolean false)
  /\ fst (run (BinaryExpression "==" (BinaryExpression "==" (NumericLiteral 1) (NumericLiteral 1))
                 (NumericLiteral 1)))
     = Normal (VBoolean true).
Proof. repeat split; vm_compute; reflexivity. Qed.

(** [1 == "1"] holds, the string being converted; [1 == 2] compares two
    numbers, which differ; [null == 0] does not hold, and [null != 0] does:
    [null] is not converted. *)
Lemma C3_loose_equality_witness :
  run (BinaryExpression "==" (NumericLiteral 1) (StringLiteral "1"))
  = (Normal (VBoolean true), fresh)
  /\ run one_equals_two = (Normal (VBoolean false), fresh)
  /\ run (BinaryExpression "==" NullLiteral (NumericLiteral 0))
     = (Normal (VBoolean false), fresh)
  /\ run (BinaryExpression "!=" NullLiteral (NumericLiteral 0))
     = (Normal (VBoolean true), fresh).
Proof.
  split_and!.
  - pose proof (C3_loose_equality bare_host 29 (NumericLiteral 1) (StringLiteral "1")
                  fresh fresh fresh (VNumber 1) (VString "1") eq_refl eq_refl) as W.
    cbv zeta in W. destruct W as (_ & _ & _ & _ & W & _). exact (W _ _ eq_refl eq_refl).
  - pose proof (C3_loose_equality bare_host 29 (NumericLiteral 1) (NumericLiteral 2)
                  fresh fresh fresh (VNumber 1) (VNumber 2) eq_refl eq_refl) as W.
    cbv zeta in W. destruct W as (_ & _ & W & _). exact (W eq_refl).
  - pose proof (C3_loose_equality bare_host 29 NullLiteral (NumericLiteral 0)
                  fresh fresh fresh VNull (VNumber 0) eq_refl eq_refl) as W.
    cbv zeta in W. destruct W as (_ & _ & _ & W & _). exact (W (or_introl eq_refl)).
  - pose proof (C3_loose_equality bare_host 29 NullLiteral (NumericLiteral 0)
                  fresh fresh fresh VNull (VNumber 0) eq_refl eq_refl) as W.
    cbv zeta in W. destruct W as (_ & W & _).
    exact (proj2 (W false (LE_nullish_left bare_host VNull (VNumber 0) eq_refl
                             (or_introl eq_refl)))).
Defined.

(** C1, the code at a failing input: the left operand of [&&] evaluates to
    [false] (or to [null], as the literal [Ghalat] does), and the right
    operand is evaluated all the same, so that its error is raised; likewise
    for [||] on a truthy left operand. This is what the evaluation ends with
    for every fuel from 30 on. *)
Theorem C1_right_operand_always_evaluated :
  forall k,
  let result program := fst (execute bare_host (30 + k) program fresh) in
  result one_equals_two = Normal (VBoolean false)
  /\ result (LogicalExpression "&&" one_equals_two one_minus_a)
     = Throw (RuntimeError "Operands must be numbers.")
  /\ result (LogicalExpression "&&" (BooleanLiteral false)
               (CallExpression (Identifier "rightSideNeverEvaluated") []))
     = Throw (RuntimeError "UndefinedVariable")
  /\ result (LogicalExpression "||" (NumericLiteral 1) one_minus_a)
     = Throw (RuntimeError "Operands must be numbers.").
Proof. intros k result. subst result. cbv beta. by_run k. Qed.

(** C4, the code at a failing input: after [Banao a = 1, b = 2;] the name [a]
    is bound and [b] is not, for every fuel from 30 on. *)
Theorem C4_only_first_declarator_defined :
  forall k,
  let after := execute bare_host (30 + k) declare_a_b fresh in
  fst after = Normal VNull
  /\ bound_to "a" (snd after) = Some (VNumber 1)
  /\ bound_to "b" (snd after) = None
  /\ fst (execute bare_host (30 + k) (Identifier "b") (snd after))
     = Throw (RuntimeError "UndefinedVariable").
Proof.
  intros k after. subst after. rewrite (run_enough _ k) by (vm_compute; discriminate).
  repeat split; vm_compute; reflexivity.
Qed.

(** C5, the code at a failing input: a [for] statement with an initializer
    and no test ends at once, and its body is never evaluated ([n] is still
    0), for every fuel from 30 on. *)
Theorem C5_absent_test_stops_loop :
  forall k,
  let after := execute bare_host (30 + k) count_without_test fresh in
  fst after = Normal VNull /\ bound_to "n" (snd after) = Some (VNumber 0).
Proof. intros k after. subst after. by_run k. Qed.

(** C6, the code at a failing input: calling a number, a string, a boolean
    or [null] ends in the host's TypeError, not in the interpreter's
    RuntimeError, and the arguments of the call on a number are evaluated
    first; for every fuel from 30 on. *)
Theorem C6_non_callable_callee_type_error :
  forall k,
  let result program := fst (execute bare_host (30 + k) program fresh) in
  result (CallExpression (NumericLiteral 5) []) = Throw TypeError
  /\ result (CallExpression (StringLiteral "f") []) = Throw TypeError
  /\ result (CallExpression one_equals_two []) = Throw TypeError
  /\ result (CallExpression NullLiteral []) = Throw TypeError
  /\ result (CallExpression (NumericLiteral 5) [one_minus_a])
     = Throw (RuntimeError "Operands must be numbers.").
Proof. intros k result. subst result. cbv beta. by_run k. Qed.

(** ** Token offsets *)

Example tokens_sample :
  map (fun tok => (Tokenizer.type tok, Tokenizer.value tok))
      (Tokenizer.tokens 20 (Tokenizer.init "Banao x1 = 42; // c"))
  = [ (Tokenizer.let_, "Banao"); (Tokenizer.IDENTIFIER, "x1");
      (Tokenizer.SIMPLE_ASSIGNMENT, "="); (Tokenizer.NUMBER, "42");
      (Tokenizer.SEMI, ";") ].
Proof. vm_compute. reflexivity. Qed.

Lemma slice_length n : forall s, String.length (Str.slice n s) = (String.length s - n)%nat.
Proof. induction n as [| n IH]; intros [| c s]; simpl; auto. Qed.

Lemma take_length n : forall s, (n <= String.length s)%nat -> String.length (Str.take n s) = n.
Proof.
  induction n as [| n IH]; intros [| c s]; simpl; intros Hle; try lia.
  rewrite IH; lia.
Qed.

Lemma span_length p : forall s, (Tokenizer.span p s <= String.length s)%nat.
Proof. induction s as [| c s IH]; simpl; [lia |]. destruct (p c); lia. Qed.

Lemma prefix_length l : forall s, String.prefix l s = true -> (String.length l <= String.length s)%nat.
Proof.
  induction l as [| a l IH]; intros [| c s]; simpl; intros Hp; try lia; try discriminate.
  destruct (ascii_dec a c); [| discriminate]. apply IH in Hp. lia.
Qed.

Lemma until_close_length : forall s n, Tokenizer.until_close s = Some n -> (n <= String.length s)%nat.
Proof.
  induction s as [| c s IH]; intros n Hn; [discriminate |].
  assert (Hrec : forall m, Tokenizer.until_close s = Some m -> (S m <= String.length (String c s))%nat).
  { intros m Hm. apply IH in Hm. simpl. lia. }
  cbn [Tokenizer.until_close] in Hn.
  destruct (Ascii.eqb c "*") eqn:Hc.
  - apply Ascii.eqb_eq in Hc. subst c.
    destruct s as [| d s'].
    + simpl in Hn. discriminate.
    + destruct (Ascii.eqb d "/") eqn:Hd.
      * apply Ascii.eqb_eq in Hd. subst d. inversion Hn. simpl. lia.
      * assert (Hn' : option_map S (Tokenizer.until_close (String d s')) = Some n).
        { revert Hn Hd. clear.
          destruct d as [[] [] [] [] [] [] [] []]; intros Hn Hd; try exact Hn; discriminate. }
        destruct (Tokenizer.until_close (String d s')) as [m |]; [| discriminate].
        inversion Hn'. apply Hrec. reflexivity.
  - assert (Hn' : option_map S (Tokenizer.until_close s) = Some n).
    { revert Hn Hc. clear.
      destruct c as [[] [] [] [] [] [] [] []]; intros Hn Hc; try exact Hn; discriminate. }
    destruct (Tokenizer.until_close s) as [m |]; [| discriminate].
    inversion Hn'. apply Hrec. reflexivity.
Qed.

Lemma many1_bounded p : Tokenizer.bounded (Tokenizer.many1 p).
Proof.
  intros s n. unfold Tokenizer.many1. pose proof (span_length p s).
  destruct (Tokenizer.span p s); intros E; inversion E; subst. lia.
Qed.

Lemma lit_bounded l : Tokenizer.bounded (Tokenizer.lit l).
Proof.
  intros s n. unfold Tokenizer.lit. destruct (String.prefix l s) eqn:Hp; intros E; inversion E.
  subst. apply prefix_length, Hp.
Qed.

Lemma keyword_bounded kw : Tokenizer.bounded (Tokenizer.keyword kw).
Proof.
  intros s n. unfold Tokenizer.keyword.
  destruct (String.prefix kw s) eqn:Hp; [| discriminate]. apply prefix_length in Hp.
  destruct (Str.slice _ s) as [| c r]; [| destruct (Str.is_word c)];
    intros E; inversion E; subst; exact Hp.
Qed.

Lemma one_of_bounded set : Tokenizer.bounded (Tokenizer.one_of set).
Proof.
  intros [| c s] n; simpl; [discriminate |].
  destruct (existsb _ _); intros E; inversion E. lia.
Qed.

Lemma one_of_then_eq_bounded set : Tokenizer.bounded (Tokenizer.one_of_then_eq set).
Proof.
  intros s n. unfold Tokenizer.one_of_then_eq.
  destruct (Tokenizer.one_of set s); [| discriminate].
  destruct s as [| c [| d s]]; simpl; try discriminate.
  destruct d as [[] [] [] [] [] [] [] []]; intros E; inversion E; lia.
Qed.

Lemma relational_bounded : Tokenizer.bounded Tokenizer.relational.
Proof.
  intros s n. unfold Tokenizer.relational.
  destruct s as [| c [| d s]]; [discriminate | |];
    (destruct (Tokenizer.one_of "><" _); [| discriminate]); simpl.
  - intros E; inversion E; lia.
  - destruct d as [[] [] [] [] [] [] [] []]; intros E; inversion E; lia.
Qed.

Lemma line_comment_bounded : Tokenizer.bounded Tokenizer.line_comment.
Proof.
  intros s n. unfold Tokenizer.line_comment.
  destruct (String.prefix "//" s) eqn:Hp; [| discriminate]. intros [= <-].
  apply prefix_length in Hp. simpl in Hp.
  pose proof (span_length (fun c => negb (Str.is_line_terminator c)) (Str.slice 2 s)) as Hs.
  rewrite slice_length in Hs.
  change (2 + Tokenizer.span (fun c => negb (Str.is_line_terminator c)) (Str.slice 2 s)
          <= String.length s)%nat.
  lia.
Qed.

Lemma block_comment_bounded : Tokenizer.bounded Tokenizer.block_comment.
Proof.
  intros s n. unfold Tokenizer.block_comment.
  destruct (String.prefix "/*" s) eqn:Hp; [| discriminate].
  apply prefix_length in Hp. simpl in Hp.
  destruct (Tokenizer.until_close (Str.slice 2 s)) as [m |] eqn:Hm; [| discriminate].
  intros [= <-]. apply until_close_length in Hm. rewrite slice_length in Hm. lia.
Qed.

Lemma quoted_bounded q : Tokenizer.bounded (Tokenizer.quoted q).
Proof.
  intros [| c s] n; simpl; [discriminate |].
  destruct (Ascii.eqb c q); [| discriminate].
  set (k := Tokenizer.span _ s).
  pose proof (slice_length k s) as Hs.
  destruct (Str.slice k s) as [| c' r]; [discriminate |].
  destruct (Ascii.eqb c' q); intros E; inversion E. simpl in Hs. lia.
Qed.

(** No rule of the table matches more than there is. *)
Lemma spec_bounded : Forall (fun rule => Tokenizer.bounded (fst rule)) Tokenizer.spec.
Proof.
  unfold Tokenizer.spec.
  repeat (apply Forall_cons; split;
          [first [ apply many1_bounded | apply lit_bounded | apply keyword_bounded
                 | apply one_of_bounded | apply one_of_then_eq_bounded
                 | apply relational_bounded | apply line_comment_bounded
                 | apply block_comment_bounded | apply quoted_bounded ] |]).
  apply Forall_nil. exact I.
Qed.

(** What [_match] answers on a match: the first [n] characters, [n] being
    what the pattern matched, and the cursor moved by [n]. *)
Lemma _match_Some regex s tk matched tk' :
  Tokenizer.bounded regex ->
  Tokenizer._match regex s tk = (Some matched, tk') ->
  exists n, regex s = Some n /\ matched = Str.take n s /\ String.length matched = n
            /\ tk' = Tokenizer.mk (Tokenizer.string_ tk) (Tokenizer.cursor tk + n).
Proof.
  intros Hb. unfold Tokenizer._match, Tokenizer.exec.
  destruct (regex s) as [n |] eqn:Hn; simpl; [| discriminate].
  intros [= <- <-]. exists n. rewrite take_length by (apply Hb, Hn). auto.
Qed.

Lemma first_match_Some rules s tk tokenValue ty tk' :
  Forall (fun rule => Tokenizer.bounded (fst rule)) rules ->
  Tokenizer.first_match rules s tk = Some (tokenValue, ty, tk') ->
  tokenValue = Str.take (String.length tokenValue) s
  /\ (String.length tokenValue <= String.length s)%nat
  /\ tk' = Tokenizer.mk (Tokenizer.string_ tk)
                        (Tokenizer.cursor tk + String.length tokenValue).
Proof.
  induction 1 as [| [p t] rest Hp _ IH]; simpl; [discriminate |].
  destruct (Tokenizer._match p s tk) as [[m |] tk1] eqn:Hm; [| exact IH].
  intros [= <- <- <-].
  destruct (_match_Some _ _ _ _ _ Hp Hm) as (n & Hn & Ht & Hl & Hk).
  rewrite Hl. repeat split; [exact Ht | apply Hp, Hn | exact Hk].
Qed.

Lemma many1_positive p s n : Tokenizer.many1 p s = Some n -> (1 <= n)%nat.
Proof.
  unfold Tokenizer.many1. destruct (Tokenizer.span p s); intros E; inversion E. lia.
Qed.

Lemma line_comment_positive s n : Tokenizer.line_comment s = Some n -> (1 <= n)%nat.
Proof.
  unfold Tokenizer.line_comment. destruct (String.prefix "//" s); intros E; inversion E. lia.
Qed.

Lemma block_comment_positive s n : Tokenizer.block_comment s = Some n -> (1 <= n)%nat.
Proof.
  unfold Tokenizer.block_comment. destruct (String.prefix "/*" s); [| discriminate].
  destruct (Tokenizer.until_close (Str.slice 2 s)); intros E; inversion E. lia.
Qed.

(** Skipped text is never empty. *)
Lemma skip_consumes s tk tokenValue tk' :
  Tokenizer.first_match Tokenizer.spec s tk = Some (tokenValue, None, tk') ->
  (1 <= String.length tokenValue)%nat.
Proof.
  unfold Tokenizer.spec. cbn [Tokenizer.first_match]. intros Hm.
  destruct (Tokenizer._match (Tokenizer.many1 Str.is_space) s tk) as [[m |] tk1] eqn:E1.
  { inversion Hm; subst.
    destruct (_match_Some _ _ _ _ _ (many1_bounded _) E1) as (n & Hn & _ & <- & _).
    eapply many1_positive, Hn. }
  destruct (Tokenizer._match Tokenizer.line_comment s tk) as [[m |] tk2] eqn:E2.
  { inversion Hm; subst.
    destruct (_match_Some _ _ _ _ _ line_comment_bounded E2) as (n & Hn & _ & <- & _).
    eapply line_comment_positive, Hn. }
  destruct (Tokenizer._match Tokenizer.block_comment s tk) as [[m |] tk3] eqn:E3.
  { inversion Hm; subst.
    destruct (_match_Some _ _ _ _ _ block_comment_bounded E3) as (n & Hn & _ & <- & _).
    eapply block_comment_positive, Hn. }
  repeat match type of Hm with
         | context [match Tokenizer._match ?p s tk with _ => _ end] =>
             destruct (Tokenizer._match p s tk) as [[? |] ?]; [discriminate Hm |]
         end.
  discriminate Hm.
Qed.

Lemma getNextToken_fuel_enough fuel :
  forall tk,
  (String.length (Tokenizer.string_ tk) - Tokenizer.cursor tk < fuel)%nat ->
  exists r, Tokenizer.getNextToken_fuel fuel tk = Some r.
Proof.
  induction fuel as [| fuel IH]; intros tk Hlt; [lia |].
  cbn [Tokenizer.getNextToken_fuel].
  destruct (negb (Tokenizer.hasMoreTokens tk) || Tokenizer.isEOF tk) eqn:Hend; [eauto |].
  destruct (Tokenizer.first_match Tokenizer.spec _ tk) as [[[v [ty |]] tk'] |] eqn:Hm; eauto.
  apply IH.
  pose proof (skip_consumes _ _ _ _ Hm) as Hpos.
  destruct (first_match_Some _ _ _ _ _ _ spec_bounded Hm) as (_ & _ & ->).
  cbn [Tokenizer.string_ Tokenizer.cursor].
  apply orb_false_iff in Hend. destruct Hend as [Hmore _].
  apply negb_false_iff in Hmore. unfold Tokenizer.hasMoreTokens in Hmore.
  apply Nat.ltb_lt in Hmore. lia.
Qed.

(** X1: [getNextToken] always answers: every skip of white space or of a
    comment consumes text, so that the recursion on skipped text ends within
    the bound the model gives it. *)
Lemma getNextToken_total tk : exists r, Tokenizer.getNextToken tk = Some r.
Proof. apply getNextToken_fuel_enough. lia. Qed.

(** Every token spans one more than the length of its text: its end is the
    cursor after the match, and its start lies one before the offset at which
    its text starts. *)
Lemma token_span fuel :
  forall tk tok tk',
  Tokenizer.getNextToken_fuel fuel tk = Some (Tokenizer.Tok tok, tk') ->
  Tokenizer.end_ tok = Z.of_nat (Tokenizer.cursor tk')
  /\ (Tokenizer.end_ tok - Tokenizer.start tok
      = Z.of_nat (String.length (Tokenizer.value tok)) + 1)%Z.
Proof.
  induction fuel as [| fuel IH]; intros tk tok tk' Hg; [discriminate |].
  cbn [Tokenizer.getNextToken_fuel] in Hg.
  destruct (negb (Tokenizer.hasMoreTokens tk) || Tokenizer.isEOF tk); [discriminate |].
  destruct (Tokenizer.first_match Tokenizer.spec _ tk) as [[[v [ty |]] tk1] |];
    [| | discriminate].
  - inversion Hg; subst. cbn [Tokenizer.end_ Tokenizer.start Tokenizer.value Tokenizer.cursor].
    split; [reflexivity | lia].
  - eapply IH. exact Hg.
Qed.

(** The text of every token is the part of the source that ends at the
    token's end and starts one after the token's start. *)
Lemma token_text fuel :
  forall tk tok tk',
  Tokenizer.getNextToken_fuel fuel tk = Some (Tokenizer.Tok tok, tk') ->
  (0 <= Tokenizer.start tok + 1 <= Tokenizer.end_ tok)%Z
  /\ Tokenizer.value tok
     = Str.substring (Z.to_nat (Tokenizer.start tok + 1)) (Z.to_nat (Tokenizer.end_ tok))
                     (Tokenizer.string_ tk).
Proof.
  induction fuel as [| fuel IH]; intros tk tok tk' Hg; [discriminate |].
  cbn [Tokenizer.getNextToken_fuel] in Hg.
  destruct (negb (Tokenizer.hasMoreTokens tk) || Tokenizer.isEOF tk); [discriminate |].
  destruct (Tokenizer.first_match Tokenizer.spec _ tk) as [[[v [ty |]] tk1] |] eqn:Hm;
    [| | discriminate].
  - destruct (first_match_Some _ _ _ _ _ _ spec_bounded Hm) as (Hv & Hle & ->).
    inversion Hg; subst. cbn [Tokenizer.end_ Tokenizer.start Tokenizer.value Tokenizer.cursor].
    split; [lia |].
    unfold Str.substring. rewrite Hv at 1. f_equal; [lia |]. f_equal. lia.
  - destruct (first_match_Some _ _ _ _ _ _ spec_bounded Hm) as (_ & _ & ->).
    apply (IH _ _ _ Hg).
Qed.

(** C9, the code at a failing input: the only token of [x] has the text [x]
    of length 1 and is given the offsets -1 and 1; in [Banao x = 1;] each
    token's start lies one before its text, so that the token [x] is given
    the offsets 5 and 7, between which the source reads [ x]. *)
Theorem C9_token_start_one_before_text :
  Tokenizer.getNextToken (Tokenizer.init "x")
  = Some (Tokenizer.Tok (Tokenizer.mkToken Tokenizer.IDENTIFIER "x" (-1) 1),
          Tokenizer.mk (String "x" (String Str.newline EmptyString)) 1)
  /\ map (fun tok => (Tokenizer.value tok, Tokenizer.start tok, Tokenizer.end_ tok))
         (Tokenizer.tokens 10 (Tokenizer.init "Banao x = 1;"))
     = [("Banao", -1, 5); ("x", 5, 7); ("=", 7, 9); ("1", 9, 11); (";", 10, 12)]%Z
  /\ Str.substring 5 7 (Tokenizer.string_ (Tokenizer.init "Banao x = 1;")) = " x".
Proof. repeat split; vm_compute; reflexivity. Qed.

(** * Scopes *)

(** ** Changes of the store *)

Lemma grows_refl except h : grows except h h.
Proof. split; [lia |]. intros e t He. exists t. split_and!; auto. Qed.

Lemma grows_trans except h1 h2 h3 :
  grows except h1 h2 -> grows except h2 h3 -> grows except h1 h3.
Proof.
  intros [L1 G1] [L2 G2]. split; [lia |]. intros e t He.
  destruct (G1 _ _ He) as (t1 & He1 & Hp1 & Hs1 & Hd1).
  destruct (G2 _ _ He1) as (t2 & He2 & Hp2 & Hs2 & Hd2).
  exists t2. split_and!; [exact He2 | congruence | etrans; eassumption |].
  intros Hne. rewrite (Hd2 Hne), (Hd1 Hne). reflexivity.
Qed.

Lemma grows_weaken except h h' : grows None h h' -> grows except h h'.
Proof.
  intros [L G]. split; [exact L |]. intros e t He.
  destruct (G _ _ He) as (t' & He' & Hp & Hs & Hd).
  exists t'. split_and!; auto.
  all: intros _; apply Hd; discriminate.
Qed.

(** [add] puts a name into the one environment it is given. *)
Lemma grows_add env x v h : grows (Some env) h (Env.add env x v h).
Proof.
  unfold Env.add. destruct (h !! env) as [t0 |] eqn:H0; [| apply grows_refl].
  split; [rewrite length_insert; lia |]. intros e t He.
  destruct (decide (e = env)) as [-> | Hne].
  - rewrite list_lookup_insert_eq by (eapply lookup_lt_Some; exact H0).
    eexists. split; [reflexivity |]. rewrite H0 in He. inversion He; subst.
    cbn [Env.record Env.parent]. split_and!; [reflexivity | set_solver | congruence].
  - rewrite list_lookup_insert_ne by congruence. exists t. split_and!; auto.
Qed.

(** Writing a name that the environment already holds adds no name. *)
Lemma grows_add_held env x v h t w :
  h !! env = Some t -> Env.record t !! x = Some w -> grows None h (Env.add env x v h).
Proof.
  intros Ht Hw. unfold Env.add. rewrite Ht.
  split; [rewrite length_insert; lia |]. intros e t1 He.
  destruct (decide (e = env)) as [-> | Hne].
  - rewrite list_lookup_insert_eq by (eapply lookup_lt_Some; exact Ht).
    eexists. split; [reflexivity |]. rewrite Ht in He. inversion He; subst.
    cbn [Env.record Env.parent].
    assert (dom (<[x:=v]> (Env.record t1)) = dom (Env.record t1)) as ->.
    { apply dom_insert_lookup_L. eauto. }
    split_and!; auto.
  - rewrite list_lookup_insert_ne by congruence. exists t1. split_and!; auto.
Qed.

(** A new environment leaves the others as they are. *)
Lemma grows_create parent h : grows None h (snd (Env.create parent h)).
Proof.
  cbn [Env.create snd]. split; [rewrite length_app; lia |]. intros e t He.
  exists t. rewrite lookup_app_l by (eapply lookup_lt_Some; exact He). split_and!; auto.
Qed.

(** What is added to an environment created after [h] shows in no
    environment of [h]. *)
Lemma grows_fresh n h h1 h2 :
  (List.length h <= n)%nat -> grows None h h1 -> grows (Some n) h1 h2 -> grows None h h2.
Proof.
  intros Hn [L1 G1] [L2 G2]. split; [lia |]. intros e t He.
  destruct (G1 _ _ He) as (t1 & He1 & Hp1 & Hs1 & Hd1).
  destruct (G2 _ _ He1) as (t2 & He2 & Hp2 & Hs2 & Hd2).
  pose proof (lookup_lt_Some _ _ _ He).
  exists t2. split_and!; [exact He2 | congruence | etrans; eassumption |].
  intros _. rewrite Hd2, Hd1; [reflexivity | discriminate |].
  intros [= ->]. lia.
Qed.

Lemma grows_bind_parameters env params :
  forall args h, grows (Some env) h (bind_parameters env params args h).
Proof.
  induction params as [| p params IH]; intros args h; simpl; [apply grows_refl |].
  eapply grows_trans; [apply grows_add | apply IH].
Qed.

Lemma grows_assign h env x v r h' :
  Env.assign h env x v = (r, h') -> grows None h h'.
Proof.
  unfold Env.assign.
  destruct (Env.resolve (List.length h) h env x) as [scope |] eqn:Hr; intros [= <- <-].
  - destruct (Env_resolve_Some _ _ _ _ _ Hr) as (t & w & Ht & Hw).
    eapply grows_add_held; eassumption.
  - apply grows_refl.
Qed.

(** ** Changes of the interpreter state *)

Lemma changes_refl except i : changes except i i.
Proof. split_and!; auto. apply grows_refl. Qed.

Lemma changes_trans except i1 i2 i3 :
  changes except i1 i2 -> changes except i2 i3 -> changes except i1 i3.
Proof.
  intros (E1 & G1 & F1 & S1) (E2 & G2 & F2 & S2).
  split_and!; [congruence | congruence | lia | eapply grows_trans; eassumption].
Qed.

Lemma changes_weaken except i i' : changes None i i' -> changes except i i'.
Proof. intros (E & G & F & S). split_and!; auto. apply grows_weaken, S. Qed.

Lemma frame_refl i : frame i i.
Proof. apply changes_refl. Qed.

Lemma frame_trans i1 i2 i3 : frame i1 i2 -> frame i2 i3 -> frame i1 i3.
Proof.
  unfold frame. intros H12 H23. eapply changes_trans; [exact H12 |].
  destruct H12 as (E & _). rewrite <- E. exact H23.
Qed.

(** ** Computations that keep a relation between the states *)

Section Ensures.

Variable R : Interpreter -> Interpreter -> Prop.
Hypothesis R_refl : forall i, R i i.
Hypothesis R_trans : forall i1 i2 i3, R i1 i2 -> R i2 i3 -> R i1 i3.

Lemma ensures_ret {A : Type} (a : A) : ensures R (ret a).
Proof. intros i r i' [= _ <-]. apply R_refl. Qed.

Lemma ensures_throw {A : Type} (e : exception) : ensures R (@throw A e).
Proof. intros i r i' [= _ <-]. apply R_refl. Qed.

Lemma ensures_lift {A : Type} (c : completion A) : ensures R (lift c).
Proof. intros i r i' [= _ <-]. apply R_refl. Qed.

Lemma ensures_out_of_fuel {A : Type} : ensures R (fun i => (@OutOfFuel A, i)).
Proof. intros i r i' [= _ <-]. apply R_refl. Qed.

Lemma ensures_bind {A B : Type} (m : M A) (k : A -> M B) :
  ensures R m -> (forall a, ensures R (k a)) -> ensures R (bind m k).
Proof.
  intros Hm Hk i r i' Hb. unfold bind in Hb.
  destruct (m i) as [[a | e |] i1] eqn:E.
  - eapply R_trans; [eapply Hm, E | eapply Hk, Hb].
  - inversion Hb; subst. eapply Hm, E.
  - inversion Hb; subst. eapply Hm, E.
Qed.

End Ensures.

Lemma ensures_weaken {A : Type} (R R' : Interpreter -> Interpreter -> Prop) (m : M A) :
  (forall i i', R i i' -> R' i i') -> ensures R m -> ensures R' m.
Proof. intros HR Hm i r i' E. apply HR. eapply Hm, E. Qed.

(** Closes a goal [ensures frame m] for a computation built from steps that
    are known to keep the frame. *)
Ltac framing :=
  repeat first
    [ assumption
    | apply (ensures_ret frame frame_refl)
    | apply (ensures_throw frame frame_refl)
    | apply (ensures_lift frame frame_refl)
    | apply (ensures_out_of_fuel frame frame_refl)
    | apply (ensures_bind frame frame_trans); [| intros ?]
    | match goal with
      | H : forall n, ensures frame (?v n) |- ensures frame (?v _) => apply H
      | |- ensures frame (if ?b then _ else _) => destruct b
      | |- ensures frame (match ?x with _ => _ end) => destruct x
      end ].

(** ** The steps of the interpreter on its environments *)

Lemma environment_get_frame name : ensures frame (environment_get name).
Proof. intros i r i' [= _ <-]. apply frame_refl. Qed.

Lemma this_environment_frame : ensures frame this_environment.
Proof. intros i r i' [= _ <-]. apply frame_refl. Qed.

Lemma environment_add_frame name v : ensures frame (environment_add name v).
Proof.
  intros i r i' [= _ <-]. unfold frame, changes. cbn. split_and!; auto. apply grows_add.
Qed.

Lemma environment_assign_changes name v : ensures (changes None) (environment_assign name v).
Proof.
  intros i r i' E. unfold environment_assign in E.
  destruct (Env.assign _ _ _ _) as [r0 h] eqn:Ha. inversion E; subst.
  split_and!; cbn; auto. eapply grows_assign, Ha.
Qed.

Lemma new_Environment_changes parent : ensures (changes None) (new_Environment parent).
Proof.
  intros i r i' [= _ <-]. split_and!; cbn; auto.
  apply (grows_create (Some parent)).
Qed.

Lemma new_ToyLangFunction_changes declaration closure :
  ensures (changes None) (new_ToyLangFunction declaration closure).
Proof. intros i r i' [= _ <-]. split_and!; cbn; auto. apply grows_refl. Qed.

Lemma changes_frame {A : Type} (m : M A) : ensures (changes None) m -> ensures frame m.
Proof. apply ensures_weaken. intros i i'. apply changes_weaken. Qed.

(** ** Every visit keeps the frame *)

Section Frame.

Variable H : Host.
Hypothesis natives : natives_keep_scopes H.
Variable v : option node -> M value.
Hypothesis Hv : forall n, ensures frame (v n).

Lemma for_each_frame statements : ensures frame (for_each v statements).
Proof. induction statements as [| st rest IH]; simpl; framing. Qed.

Lemma visit_arguments_frame arguments : ensures frame (visit_arguments v arguments).
Proof. induction arguments as [| a rest IH]; simpl; framing. Qed.

(** The statements of a block may add names to the environment they run in,
    and to no other. *)
Lemma executeBlock_changes statements env :
  ensures (changes (Some env)) (executeBlock v statements env).
Proof.
  intros i r i' E. unfold executeBlock in E.
  destruct (for_each v statements _) as [r0 i0] eqn:E0. inversion E; subst.
  destruct (for_each_frame _ _ _ _ E0) as (He & Hg & Hf & Hs). cbn in *.
  split_and!; cbn; auto.
Qed.

Lemma visitBlockStatement_changes body : ensures (changes None) (visitBlockStatement v body).
Proof.
  intros i r i' E. unfold visitBlockStatement, bind, this_environment, new_Environment in E.
  cbn [Env.create] in E.
  match type of E with
  | context [executeBlock v body ?env ?i1] =>
      destruct (executeBlock v body env i1) as [[u | e |] i2] eqn:E2
  end; inversion E; subst;
    destruct (executeBlock_changes _ _ _ _ _ E2) as (He & Hg & Hf & Hs); cbn in *;
    (split_and!; auto;
     eapply grows_fresh; [reflexivity | apply (grows_create (Some (environment i))) | exact Hs]).
Qed.

(** A call of a user function adds no name to any environment that existed
    before the call. *)
Lemma call_ToyLangFunction_changes id declaration closure args :
  ensures (changes None) (call H v (ToyLangFunction id declaration closure) args).
Proof.
  destruct declaration; try (intros i r i' [= _ <-]; apply changes_refl).
  intros i r i' E. cbn [call Env.create] in E.
  match type of E with
  | context [executeBlock v ?body ?env ?i1] =>
      destruct (executeBlock v body env i1) as [r0 i2] eqn:E2
  end.
  assert (i' = i2) as ->.
  { destruct r0 as [u | [] |]; inversion E; reflexivity. }
  destruct (executeBlock_changes _ _ _ _ _ E2) as (He & Hg & Hf & Hs); cbn in *.
  split_and!; auto.
  eapply grows_fresh;
    [ reflexivity
    | apply (grows_create (Some closure))
    | eapply grows_trans; [apply grows_bind_parameters | exact Hs] ].
Qed.

Lemma call_frame c args : ensures frame (call H v c args).
Proof.
  destruct c as [name a | id declaration closure].
  - apply natives.
  - apply changes_frame, call_ToyLangFunction_changes.
Qed.

Lemma visitCallExpression_frame callee arguments :
  ensures frame (visitCallExpression H v callee arguments).
Proof.
  pose proof visit_arguments_frame. pose proof call_frame.
  unfold visitCallExpression. framing; auto.
Qed.

Lemma while_loop_frame test body : forall n, ensures frame (while_loop v n test body).
Proof. induction n as [| n IH]; simpl; framing. Qed.

Lemma for_loop_frame test update body :
  forall n, ensures frame (for_loop v n test update body).
Proof. induction n as [| n IH]; simpl; framing. Qed.

Lemma forever_frame body : forall n, ensures frame (forever v n body).
Proof. induction n as [| n IH]; simpl; framing. Qed.

Lemma dispatch_frame bound n : ensures frame (dispatch H v bound n).
Proof.
  pose proof for_each_frame. pose proof visitCallExpression_frame.
  pose proof while_loop_frame. pose proof for_loop_frame. pose proof forever_frame.
  pose proof environment_get_frame. pose proof this_environment_frame.
  pose proof environment_add_frame.
  pose proof (fun x w => changes_frame _ (environment_assign_changes x w)).
  pose proof (fun d c => changes_frame _ (new_ToyLangFunction_changes d c)).
  pose proof (fun b => changes_frame _ (visitBlockStatement_changes b)).
  destruct n as [[] |]; cbn [dispatch];
    unfold visitExpression, visitIfStatement, visitWhileStatement, visitForStatement,
      visitVariableStatement, visitUnaryExpression, visitBinaryExpression,
      visitLogicalExpression, visitAssignmentExpression, visitFunctionDeclaration,
      visitReturnStatement, visitProgram, visitLiterals, visitIdentifier;
    first [solve [auto] | framing; auto].
Qed.

End Frame.

Lemma visit_ensures_frame (H : Host) :
  natives_keep_scopes H -> forall fuel n, ensures frame (visit H fuel n).
Proof.
  intros natives. induction fuel as [| fuel IH]; intros n.
  - apply (ensures_out_of_fuel frame frame_refl).
  - apply dispatch_frame; assumption.
Qed.

(** The natives of the bare host, which are never reached, keep the
    scopes. *)
Lemma bare_host_keeps_scopes : natives_keep_scopes bare_host.
Proof. intros name args i r i' [= _ <-]. apply frame_refl. Qed.

(** X10: with natives that respect the scopes, the evaluation of any node,
    however it ends, leaves the current and the global environment of the
    interpreter as they were, removes no environment and changes no
    back-reference, and adds names to the current environment only: every
    other environment holds exactly the names it held before. *)
Theorem visit_keeps_scopes (H : Host) fuel n i r i' :
  natives_keep_scopes H ->
  visit H fuel n i = (r, i') ->
  environment i' = environment i
  /\ globals i' = globals i
  /\ (List.length (store i) <= List.length (store i'))%nat
  /\ forall e t, store i !! e = Some t ->
       exists t', store i' !! e = Some t'
                  /\ Env.parent t' = Env.parent t
                  /\ dom (Env.record t) ⊆ dom (Env.record t')
                  /\ (e <> environment i -> dom (Env.record t') = dom (Env.record t)).
Proof.
  intros natives E.
  destruct (visit_ensures_frame H natives fuel n _ _ _ E) as (He & Hg & _ & Hl & Hs).
  split_and!; auto. intros e t Ht.
  destruct (Hs _ _ Ht) as (t' & Ht' & Hp & Hd & Hx).
  exists t'. split_and!; auto. intros Hne. apply Hx. congruence.
Qed.

(** On the recursive factorial: the run ends in the environment it started
    in, with no fewer environments. *)
Lemma visit_keeps_scopes_witness :
  environment (snd (run factorial_program)) = environment fresh
  /\ (List.length (store fresh) <= List.length (store (snd (run factorial_program))))%nat.
Proof.
  destruct (visit_keeps_scopes bare_host 30 (Some factorial_program) fresh
              (fst (run factorial_program)) (snd (run factorial_program))
              bare_host_keeps_scopes (surjective_pairing _)) as (He & _ & Hl & _).
  split; assumption.
Defined.

(** ** Blocks *)

Lemma BlockStatement_changes (H : Host) fuel body i r i' :
  natives_keep_scopes H ->
  visit H (S fuel) (Some (BlockStatement body)) i = (r, i') ->
  changes None i i'.
Proof.
  intros natives E.
  eapply (visitBlockStatement_changes (visit H fuel)); [| exact E].
  apply visit_ensures_frame, natives.
Qed.

(** X11: with natives that respect the scopes, a block statement adds no name
    to any environment that existed before it: what its statements declare
    goes to the environment created for the block. *)
Theorem block_declares_nothing_outside (H : Host) fuel body i r i' :
  natives_keep_scopes H ->
  visit H (S fuel) (Some (BlockStatement body)) i = (r, i') ->
  forall e t, store i !! e = Some t ->
    exists t', store i' !! e = Some t'
               /\ Env.parent t' = Env.parent t
               /\ dom (Env.record t') = dom (Env.record t).
Proof.
  intros natives E e t Ht.
  destruct (BlockStatement_changes H _ _ _ _ _ natives E) as (_ & _ & _ & _ & Hs).
  destruct (Hs _ _ Ht) as (t' & Ht' & Hp & _ & Hd).
  exists t'. split_and!; [exact Ht' | exact Hp | apply Hd; discriminate].
Qed.

(** After [{ Banao x = 1; }] on the fresh interpreter, the global environment
    holds no name, as before. *)
Lemma block_declares_nothing_outside_witness :
  exists t', store (snd (run (BlockStatement
                                [VariableStatement [("x", Some (NumericLiteral 1))]]))) !! 0%nat
             = Some t'
             /\ Env.parent t' = None
             /\ dom (Env.record t') = dom (∅ : gmap string value).
Proof.
  exact (block_declares_nothing_outside bare_host 29
           [VariableStatement [("x", Some (NumericLiteral 1))]] fresh _ _
           bare_host_keeps_scopes (surjective_pairing _) 0%nat (Env.mk ∅ None) eq_refl).
Defined.

(** Resolution of a name looks at the back-references and at the names the
    environments hold, and at nothing else. *)
Lemma Env_resolve_same_scopes h h' x :
  Env.well_formed h ->
  (forall e t, h !! e = Some t ->
     exists t', h' !! e = Some t' /\ Env.parent t' = Env.parent t
                /\ dom (Env.record t') = dom (Env.record t)) ->
  forall fuel env, (env < List.length h)%nat ->
  Env.resolve fuel h' env x = Env.resolve fuel h env x.
Proof.
  intros Hwf Hs. induction fuel as [| fuel IH]; intros env Hlt; [reflexivity |].
  destruct (lookup_lt_is_Some_2 h env Hlt) as [t Ht].
  destruct (Hs _ _ Ht) as (t' & Ht' & Hp & Hd).
  simpl. rewrite Ht, Ht', Hp.
  assert (Hx : is_Some (Env.record t' !! x) <-> is_Some (Env.record t !! x)).
  { rewrite <- !elem_of_dom, Hd. reflexivity. }
  destruct (Env.record t' !! x) as [w' |] eqn:Hw', (Env.record t !! x) as [w |] eqn:Hw.
  - reflexivity.
  - destruct Hx as [Hx _]. destruct Hx as [? ?]; [eauto | discriminate].
  - destruct Hx as [_ Hx]. destruct Hx as [? ?]; [eauto | discriminate].
  - destruct (Env.parent t) as [p |] eqn:Hpar; [| reflexivity].
    apply IH. pose proof (Hwf _ _ _ Ht Hpar). lia.
Qed.

Lemma Env_lookup_is_Some h env x :
  is_Some (Env.lookup h env x) <-> is_Some (Env.resolve (List.length h) h env x).
Proof.
  unfold Env.lookup.
  destruct (Env.resolve (List.length h) h env x) as [scope |] eqn:Hr.
  - destruct (Env_resolve_Some _ _ _ _ _ Hr) as (t & w & Ht & Hw).
    rewrite Ht, Hw. split; eauto.
  - split; intros [? ?]; discriminate.
Qed.

(** X12: in a store whose back-references point backwards, and with natives
    that respect the scopes, a block statement changes nothing to which names
    are visible: a name is bound after the block, in the environment that is
    current again, exactly if it was bound before the block. *)
Theorem block_keeps_visible_names (H : Host) fuel body i r i' x :
  natives_keep_scopes H ->
  Env.well_formed (store i) ->
  (environment i < List.length (store i))%nat ->
  visit H (S fuel) (Some (BlockStatement body)) i = (r, i') ->
  is_Some (bound_to x i') <-> is_Some (bound_to x i).
Proof.
  intros natives Hwf Hlt E. unfold bound_to.
  destruct (BlockStatement_changes H _ _ _ _ _ natives E) as (He & _ & _ & Hl & Hg).
  assert (Hs : forall e t, store i !! e = Some t ->
                 exists t', store i' !! e = Some t' /\ Env.parent t' = Env.parent t
                            /\ dom (Env.record t') = dom (Env.record t)).
  { intros e t Ht. destruct (Hg _ _ Ht) as (t' & Ht' & Hp & _ & Hd).
    exists t'. split_and!; [exact Ht' | exact Hp | apply Hd; discriminate]. }
  rewrite !Env_lookup_is_Some, He.
  rewrite (Env_resolve_same_scopes _ _ x Hwf Hs _ _ Hlt).
  rewrite (Env_resolve_enough _ _ _ _ Hwf Hl). reflexivity.
Qed.

Lemma fresh_well_formed : Env.well_formed (store fresh).
Proof.
  intros env e p He Hp. destruct env as [| env]; [| discriminate].
  vm_compute in He. inversion He; subst. discriminate.
Qed.

(** After [{ Banao x = 1; }] on the fresh interpreter, [x] is not bound. *)
Lemma block_keeps_visible_names_witness :
  ~ is_Some (bound_to "x" (snd (run (BlockStatement
                                       [VariableStatement [("x", Some (NumericLiteral 1))]])))).
Proof.
  intros Hx.
  apply (block_keeps_visible_names bare_host 29
           [VariableStatement [("x", Some (NumericLiteral 1))]] fresh
           (fst (run (BlockStatement [VariableStatement [("x", Some (NumericLiteral 1))]])))
           (snd (run (BlockStatement [VariableStatement [("x", Some (NumericLiteral 1))]])))
           "x" bare_host_keeps_scopes fresh_well_formed) in Hx.
  - destruct Hx as [w Hw]. vm_compute in Hw. discriminate.
  - vm_compute. lia.
  - apply surjective_pairing.
Defined.

(** * Statements in sequence *)

Lemma for_each_app (v : option node -> M value) a b :
  forall i, for_each v (a ++ b)%list i = (do _ <- for_each v a; for_each v b) i.
Proof.
  induction a as [| st a IH]; intros i; simpl; [reflexivity |].
  unfold bind. destruct (v (Some st) i) as [[w | e |] i1]; try reflexivity.
  specialize (IH i1). unfold bind in IH. exact IH.
Qed.

Lemma for_each_app_Normal (v : option node -> M value) a b i i1 :
  for_each v a i = (Normal tt, i1) -> for_each v (a ++ b)%list i = for_each v b i1.
Proof. intros E. rewrite for_each_app. unfold bind. rewrite E. reflexivity. Qed.


Lemma visit_Program (H : Host) fuel body :
  visit H (S fuel) (Some (Program body)) = (do _ <- for_each (visit H fuel) body; ret VNull).
Proof. reflexivity. Qed.

(** What a program ends with tells how its statements ended. *)
Lemma visit_Program_inv (H : Host) fuel body i r i' :
  visit H (S fuel) (Some (Program body)) i = (r, i') ->
  match r with
  | Normal w => w = VNull /\ for_each (visit H fuel) body i = (Normal tt, i')
  | Throw e => for_each (visit H fuel) body i = (Throw e, i')
  | OutOfFuel => for_each (visit H fuel) body i = (OutOfFuel, i')
  end.
Proof.
  rewrite visit_Program. unfold bind.
  destruct (for_each (visit H fuel) body i) as [[[] | e |] i1]; intros [= <- <-]; auto.
Qed.



(** X14: a return statement never ends normally, and ends the program it
    stands in. Once the statements before it ended normally, the program
    throws the Return signal with null when the statement has no argument,
    and with the value of the argument when it has one; the statements after
    it are not evaluated. *)
Theorem return_ends_program (H : Host) fuel before after i i1 :
  visit H (S (S fuel)) (Some (Program before)) i = (Normal VNull, i1) ->
  visit H (S (S fuel)) (Some (Program (before ++ ReturnStatement None :: after))) i
  = (Throw (Return VNull), i1)
  /\ forall e v i2,
       visit H fuel (Some e) i1 = (Normal v, i2) ->
       visit H (S (S fuel)) (Some (Program (before ++ ReturnStatement (Some e) :: after))) i
       = (Throw (Return v), i2).
Proof.
  intros E. apply visit_Program_inv in E. destruct E as [_ E].
  split; [| intros e v i2 Ee]; rewrite visit_Program; unfold bind at 1;
    rewrite (for_each_app_Normal _ _ _ _ _ E); cbn [for_each].
  - reflexivity.
  - unfold bind at 1.
    assert (Er : visit H (S fuel) (Some (ReturnStatement (Some e))) i1 = (Throw (Return v), i2)).
    { change (visit H (S fuel) (Some (ReturnStatement (Some e))))
        with (do w <- visit H fuel (Some e); @throw value (Return w)).
      rewrite (bind_Normal _ _ _ _ _ Ee). reflexivity. }
    rewrite Er. reflexivity.
Qed.

(** [Banao x = 1;] followed by a return of [x] and a further statement:
    the program throws the Return signal with 1. *)
Lemma return_ends_program_witness :
  fst (run (Program ([VariableStatement [("x", Some (NumericLiteral 1))]]
                     ++ ReturnStatement (Some (Identifier "x")) :: [one_minus_a])))
  = Throw (Return (VNumber 1)).
Proof.
  pose proof (return_ends_program bare_host 28
                [VariableStatement [("x", Some (NumericLiteral 1))]] [one_minus_a]
                fresh with_x ltac:(vm_compute; reflexivity)) as [_ W].
  unfold run, execute. rewrite (W (Identifier "x") (VNumber 1) with_x eq_refl). reflexivity.
Defined.

(** * Loops *)

Lemma visit_WhileStatement (H : Host) fuel test body :
  visit H (S fuel) (Some (WhileStatement test body))
  = (do _ <- while_loop (visit H fuel) fuel test body; ret VNull).
Proof. reflexivity. Qed.

(** A loop that ends normally ends on a test that came out falsy. *)
Lemma while_loop_ends_on_falsy_test (v : option node -> M value) test body :
  forall n i i', while_loop v n test body i = (Normal tt, i') ->
  exists i0 t, v (Some test) i0 = (Normal t, i') /\ ES.ToBoolean t = false.
Proof.
  induction n as [| n IH]; intros i i' E; simpl in E; [discriminate |].
  unfold bind in E.
  destruct (v (Some test) i) as [[t | e |] i1] eqn:Et; try discriminate.
  destruct (ES.ToBoolean t) eqn:Hb.
  - destruct (v (Some body) i1) as [[w | e |] i2]; try discriminate.
    eapply IH, E.
  - inversion E; subst. eauto.
Qed.

(** What the test and the body of a loop both keep, the loop keeps. *)
Lemma while_loop_invariant (v : option node -> M value) (P : Interpreter -> Prop) test body :
  (forall i r i', P i -> v (Some test) i = (r, i') -> P i') ->
  (forall i r i', P i -> v (Some body) i = (r, i') -> P i') ->
  forall n i r i', P i -> while_loop v n test body i = (r, i') -> P i'.
Proof.
  intros Ht Hb. induction n as [| n IH]; intros i r i' Hi E; simpl in E.
  - inversion E; subst. exact Hi.
  - unfold bind in E.
    destruct (v (Some test) i) as [[t | e |] i1] eqn:Et;
      [| inversion E; subst; eapply Ht; eassumption
       | inversion E; subst; eapply Ht; eassumption].
    pose proof (Ht _ _ _ Hi Et) as Hi1.
    destruct (ES.ToBoolean t).
    + destruct (v (Some body) i1) as [[w | e |] i2] eqn:Eb;
        [| inversion E; subst; eapply Hb; eassumption
         | inversion E; subst; eapply Hb; eassumption].
      eapply IH; [eapply Hb; eassumption | exact E].
    + inversion E; subst. exact Hi1.
Qed.

(** X15: a while statement that ends normally has the value null, and the
    last thing it did was to evaluate its test to a falsy value: the state it
    leaves is the one that evaluation left. *)
Theorem while_ends_on_falsy_test (H : Host) fuel test body i w i' :
  visit H (S fuel) (Some (WhileStatement test body)) i = (Normal w, i') ->
  w = VNull
  /\ exists i0 t, visit H fuel (Some test) i0 = (Normal t, i') /\ falsy t.
Proof.
  rewrite visit_WhileStatement. unfold bind.
  destruct (while_loop (visit H fuel) fuel test body i) as [[[] | e |] i1] eqn:E;
    intros [= <- <-].
  split; [reflexivity |].
  destruct (while_loop_ends_on_falsy_test _ _ _ _ _ _ E) as (i0 & t & Et & Hb).
  exists i0, t. split; [exact Et | apply falsy_ToBoolean, Hb].
Qed.

(** The loop that counts [n] up to three ends on the test [n < 3] coming out
    falsy. *)
Lemma while_ends_on_falsy_test_witness :
  exists i0 t,
    visit bare_host 29 (Some n_below_three) i0
    = (Normal t, snd (execute bare_host 30 count_to_three with_n))
    /\ falsy t.
Proof.
  assert (E : visit bare_host 30
                (Some (WhileStatement n_below_three
                         (BlockStatement
                            [ExpressionStatement
                               (AssignmentExpression "+=" "n" (NumericLiteral 1))]))) with_n
              = (Normal VNull, snd (execute bare_host 30 count_to_three with_n))).
  { vm_compute. reflexivity. }
  exact (proj2 (while_ends_on_falsy_test bare_host 29 _ _ _ _ _ E)).
Defined.

(** X16: what the evaluations of the test and of the body of a while
    statement both keep, however they end, the while statement keeps, however
    it ends. *)
Theorem while_keeps_invariant (H : Host) (P : Interpreter -> Prop) fuel test body i r i' :
  (forall i r i', P i -> visit H fuel (Some test) i = (r, i') -> P i') ->
  (forall i r i', P i -> visit H fuel (Some body) i = (r, i') -> P i') ->
  P i ->
  visit H (S fuel) (Some (WhileStatement test body)) i = (r, i') ->
  P i'.
Proof.
  intros Ht Hb Hi. rewrite visit_WhileStatement. unfold bind.
  destruct (while_loop (visit H fuel) fuel test body i) as [[[] | e |] i1] eqn:E;
    intros [= <- <-];
    (eapply (while_loop_invariant _ P); [exact Ht | exact Hb | exact Hi | exact E]).
Qed.

(** The loop that counts [n] up to three keeps the current environment. *)
Lemma while_keeps_invariant_witness :
  environment (snd (execute bare_host 30 count_to_three with_n)) = environment with_n.
Proof.
  apply (while_keeps_invariant bare_host (fun i => environment i = environment with_n)
           29 n_below_three
           (BlockStatement
              [ExpressionStatement (AssignmentExpression "+=" "n" (NumericLiteral 1))])
           with_n (fst (execute bare_host 30 count_to_three with_n))).
  - intros i r i' Hi E.
    destruct (visit_ensures_frame bare_host bare_host_keeps_scopes _ _ _ _ _ E) as (He & _).
    congruence.
  - intros i r i' Hi E.
    destruct (visit_ensures_frame bare_host bare_host_keeps_scopes _ _ _ _ _ E) as (He & _).
    congruence.
  - reflexivity.
  - apply surjective_pairing.
Defined.
(** * Declarations and assignments *)

(** ** Names added to an environment *)




Section Declarations.

Variable H : Host.




Lemma visit_FunctionDeclaration fuel name params body :
  visit H (S fuel) (Some (FunctionDeclaration name params body))
  = (do closure <- this_environment;
     do f <- new_ToyLangFunction (FunctionDeclaration name params body) closure;
     do _ <- environment_add name (VCallable f);
     ret VNull).
Proof. reflexivity. Qed.


End Declarations.

(** ** Assignments that store nothing *)

Section Assignments.

Variable H : Host.

(** X22: an assignment to a name that no environment of the chain holds throws
    the RuntimeError UndefinedVariable, whatever its operator: the right side
    is evaluated first, the variable is read next, and nothing is stored. *)
Theorem assignment_to_unbound_name fuel op x e i v i1 :
  visit H fuel (Some e) i = (Normal v, i1) ->
  bound_to x i1 = None ->
  visit H (S fuel) (Some (AssignmentExpression op x e)) i
  = (Throw (RuntimeError "UndefinedVariable"), i1).
Proof.
  intros He Hx. rewrite visit_AssignmentExpression, (bind_Normal _ _ _ _ _ He).
  unfold bound_to in Hx. unfold bind, environment_get, Env.get. rewrite Hx. reflexivity.
Qed.

(** X23: the compound assignments [-=], [/=] and [*=] check their right side
    only: when it evaluated to anything but a number, they throw the
    RuntimeError on the operand and store nothing, whatever the variable
    holds. *)
Theorem compound_assignment_needs_number fuel op x e i v i1 old :
  visit H fuel (Some e) i = (Normal v, i1) ->
  bound_to x i1 = Some old ->
  In op ["-="; "/="; "*="] ->
  is_number v = false ->
  visit H (S fuel) (Some (AssignmentExpression op x e)) i
  = (Throw (RuntimeError "Operand must be a number"), i1).
Proof.
  intros He Hx Hop Hv. rewrite visit_AssignmentExpression, (bind_Normal _ _ _ _ _ He).
  unfold bound_to in Hx. unfold bind, environment_get, Env.get. rewrite Hx.
  simpl in Hop.
  destruct Hop as [<- | [<- | [<- | []]]]; destruct v; try discriminate Hv; reflexivity.
Qed.

End Assignments.

(** ** Operators *)

Section Operators.

Variable H : Host.

Lemma visit_UnaryExpression fuel op argument :
  visit H (S fuel) (Some (UnaryExpression op argument))
  = (do right <- visit H fuel (Some argument); lift (unaryOperation op right)).
Proof. reflexivity. Qed.

(** X24: once the argument of a unary expression is evaluated, [-] yields the
    negated number and throws the RuntimeError on the operand for anything but
    a number, [+] yields the value as it is, without conversion to a number,
    and [!] yields [true] exactly on the values that count as false. *)
Theorem unary_operand fuel argument i v i1 :
  visit H fuel (Some argument) i = (Normal v, i1) ->
  let result op := visit H (S fuel) (Some (UnaryExpression op argument)) i in
  (forall n, v = VNumber n -> result "-" = (Normal (VNumber (- n)%float), i1))
  /\ (is_number v = false -> result "-" = (Throw (RuntimeError "Operand must be number."), i1))
  /\ result "+" = (Normal v, i1)
  /\ (falsy v -> result "!" = (Normal (VBoolean true), i1))
  /\ (~ falsy v -> result "!" = (Normal (VBoolean false), i1)).
Proof.
  intros Hv result. subst result. cbv beta.
  rewrite !visit_UnaryExpression, !(bind_Normal _ _ _ _ _ Hv).
  split_and!.
  - intros n ->. reflexivity.
  - intros Hn. destruct v; try discriminate Hn; reflexivity.
  - reflexivity.
  - intros Hf. apply falsy_ToBoolean in Hf. unfold lift, unaryOperation. simpl.
    rewrite Hf. reflexivity.
  - intros Hf. unfold lift, unaryOperation. simpl.
    destruct (ES.ToBoolean v) eqn:Hb; [reflexivity |].
    exfalso. apply Hf, falsy_ToBoolean, Hb.
Qed.

Lemma eqb_of_not_In op (known : list string) :
  ~ In op known -> forall k, In k known -> String.eqb op k = false.
Proof. intros Hn k Hk. apply String.eqb_neq. intros ->. contradiction. Qed.

(** X25: an operator that the interpreter does not know is found out only
    after the operands are evaluated. A binary and a logical expression then
    throw a plain Error; a unary expression yields null; an assignment yields
    what the variable holds and stores nothing. *)
Theorem unknown_operator fuel op left right i i1 i2 l r :
  visit H fuel (Some left) i = (Normal l, i1) ->
  visit H fuel (Some right) i1 = (Normal r, i2) ->
  (~ In op ["=="; "!="; "+"; "-"; "/"; "*"; ">"; "<"; ">="; "<="] ->
     visit H (S fuel) (Some (BinaryExpression op left right)) i
     = (Throw (Error "Runtime: Unknown Binary operation"), i2))
  /\ (~ In op ["&&"; "||"] ->
        visit H (S fuel) (Some (LogicalExpression op left right)) i
        = (Throw (Error "Runtime: Unknown Logical operation"), i2))
  /\ (~ In op ["-"; "+"; "!"] ->
        visit H (S fuel) (Some (UnaryExpression op left)) i = (Normal VNull, i1))
  /\ (~ In op ["="; "+="; "-="; "/="; "*="] ->
        forall x old, bound_to x i1 = Some old ->
        visit H (S fuel) (Some (AssignmentExpression op x left)) i = (Normal old, i1)).
Proof.
  intros Hl Hr. split_and!; intros Hop.
  - rewrite (visit_BinaryExpression_values _ _ _ _ _ _ _ _ _ _ Hl Hr).
    pose proof (eqb_of_not_In _ _ Hop) as E. unfold binaryOperation.
    rewrite !E by (simpl; tauto). reflexivity.
  - rewrite visit_LogicalExpression, (bind_Normal _ _ _ _ _ Hl), (bind_Normal _ _ _ _ _ Hr).
    pose proof (eqb_of_not_In _ _ Hop) as E. unfold lift, logicalOperation.
    rewrite !E by (simpl; tauto). reflexivity.
  - rewrite visit_UnaryExpression, (bind_Normal _ _ _ _ _ Hl).
    pose proof (eqb_of_not_In _ _ Hop) as E. unfold lift, unaryOperation.
    rewrite !E by (simpl; tauto). reflexivity.
  - intros x old Hx.
    rewrite visit_AssignmentExpression, (bind_Normal _ _ _ _ _ Hl).
    unfold bound_to in Hx. unfold bind, environment_get, Env.get. rewrite Hx.
    pose proof (eqb_of_not_In _ _ Hop) as E. unfold lift, assignmentOperation.
    rewrite !E by (simpl; tauto). reflexivity.
Qed.

(** X26: [visit] has no case for the literals [Sahi] and [Ghalat] (nor for
    [null]), so that each of them evaluates to null whatever it stands for.
    As a condition a boolean literal therefore counts as false: an if
    statement on it runs its alternate, or nothing when it has none, and
    never its consequent; a while statement on it ends at once, without
    running its body; and its negation is [true]. *)
Theorem boolean_literal_counts_as_false fuel b consequent alternate body i :
  visit H (S fuel) (Some (BooleanLiteral b)) i = (Normal VNull, i)
  /\ visit H (S (S fuel)) (Some (IfStatement (BooleanLiteral b) consequent alternate)) i
     = match alternate with
       | Some a => (do _ <- visit H (S fuel) (Some a); ret VNull) i
       | None => (Normal VNull, i)
       end
  /\ visit H (S (S fuel)) (Some (WhileStatement (BooleanLiteral b) body)) i = (Normal VNull, i)
  /\ visit H (S (S fuel)) (Some (UnaryExpression "!" (BooleanLiteral b))) i
     = (Normal (VBoolean true), i).
Proof.
  split_and!; try reflexivity. destruct alternate; reflexivity.
Qed.

End Operators.

(** ** Loops with clauses *)

Section ForLoops.

Variable H : Host.

(** X17: a [for] statement with no clause at all never ends normally: it ends
    by what its body throws, if ever. *)
Theorem for_without_clauses_never_ends fuel body i w i' :
  visit H fuel (Some (ForStatement None None None body)) i <> (Normal w, i').
Proof.
  destruct fuel as [| fuel]; [discriminate |]. apply forever_not_Normal.
Qed.




End ForLoops.

(** ** The constructor *)

(** The natives put one by one into the only environment there is. *)
Lemma natives_added stdlib :
  forall m, exists m',
    fold_left (fun h '(name, a) => Env.add 0 name (VCallable (NativeFunction name a)) h)
              stdlib [Env.mk m None]
    = [Env.mk m' None]
    /\ (forall name, ~ In name (map fst stdlib) -> m' !! name = m !! name)
    /\ (NoDup (map fst stdlib) -> forall name a, In (name, a) stdlib ->
          m' !! name = Some (VCallable (NativeFunction name a))).
Proof.
  induction stdlib as [| [n a] l IH]; intros m.
  - exists m. split_and!; [reflexivity | reflexivity | intros _ name a []].
  - destruct (IH (<[n := VCallable (NativeFunction n a)]> m)) as (m' & E & Hout & Hin).
    exists m'. split_and!.
    + cbn [fold_left]. exact E.
    + intros name Hn. simpl in Hn. rewrite Hout by tauto.
      apply lookup_insert_ne. intros ->. tauto.
    + intros Hd name a' Hi. simpl in Hd. inversion Hd as [| ? ? Hfresh Hd']; subst.
      destruct Hi as [[= <- <-] | Hi].
      * rewrite list_elem_of_In in Hfresh.
        rewrite Hout by exact Hfresh. apply lookup_insert_eq.
      * apply Hin; assumption.
Qed.

Lemma Env_lookup_single m x : Env.lookup [Env.mk m None] 0 x = m !! x.
Proof.
  unfold Env.lookup. cbn [List.length Env.resolve].
  change ([Env.mk m None] !! 0%nat) with (Some (Env.mk m None)).
  cbn [Env.record Env.parent].
  destruct (m !! x) as [w |] eqn:E; [exact E | reflexivity].
Qed.

(** X9: the constructor leaves an interpreter whose current environment is the
    global one, in which every name of the standard library is bound to its
    native and no other name is bound. *)
Theorem constructor_binds_standard_library stdlib :
  NoDup (map fst stdlib) ->
  environment (new_Interpreter stdlib) = globals (new_Interpreter stdlib)
  /\ (forall name a, In (name, a) stdlib ->
        bound_to name (new_Interpreter stdlib) = Some (VCallable (NativeFunction name a)))
  /\ (forall name, ~ In name (map fst stdlib) -> bound_to name (new_Interpreter stdlib) = None).
Proof.
  intros Hd. destruct (natives_added stdlib ∅) as (m' & E & Hout & Hin).
  assert (Ei : new_Interpreter stdlib = mkInterpreter [Env.mk m' None] 0 0 0).
  { rewrite <- E. reflexivity. }
  rewrite Ei. unfold bound_to. cbn [store environment globals].
  split_and!; [reflexivity | |].
  - intros name a Hi. rewrite Env_lookup_single. apply Hin; assumption.
  - intros name Hn. rewrite Env_lookup_single, Hout by exact Hn. apply lookup_empty.
Qed.

(** ** The properties on sample programs *)

(** A standard library of the one native [print]: the name is bound, and [x]
    is not. *)
Lemma constructor_binds_standard_library_witness :
  bound_to "print" (new_Interpreter [("print", Unbounded)])
  = Some (VCallable (NativeFunction "print" Unbounded))
  /\ bound_to "x" (new_Interpreter [("print", Unbounded)]) = None.
Proof.
  assert (Hd : NoDup (map fst [("print", Unbounded)])).
  { apply NoDup_singleton. }
  destruct (constructor_binds_standard_library [("print", Unbounded)] Hd) as (_ & Hin & Hout).
  split; [apply Hin; left; reflexivity | apply Hout].
  simpl. intros [E | []]. discriminate E.
Defined.



(** [y = 1] and [y += 1] on the fresh interpreter, where no [y] is bound. *)
Lemma assignment_to_unbound_name_witness :
  run (AssignmentExpression "=" "y" (NumericLiteral 1))
  = (Throw (RuntimeError "UndefinedVariable"), fresh)
  /\ run (AssignmentExpression "+=" "y" (NumericLiteral 1))
     = (Throw (RuntimeError "UndefinedVariable"), fresh).
Proof.
  split.
  - exact (assignment_to_unbound_name bare_host 29 "=" "y" (NumericLiteral 1) fresh
             (VNumber 1) fresh eq_refl eq_refl).
  - exact (assignment_to_unbound_name bare_host 29 "+=" "y" (NumericLiteral 1) fresh
             (VNumber 1) fresh eq_refl eq_refl).
Defined.

(** With [x] bound to 1, [x -= "a"] throws and leaves [x] as it is. *)
Lemma compound_assignment_needs_number_witness :
  execute bare_host 30 (AssignmentExpression "-=" "x" (StringLiteral "a")) with_x
  = (Throw (RuntimeError "Operand must be a number"), with_x).
Proof.
  apply (compound_assignment_needs_number bare_host 29 "-=" "x" (StringLiteral "a") with_x
           (VString "a") with_x (VNumber 1)); try reflexivity.
  left. reflexivity.
Defined.

(** [-"a"] throws, and [+"a"] is the string ["a"] itself. *)
Lemma unary_operand_witness :
  run (UnaryExpression "-" (StringLiteral "a"))
  = (Throw (RuntimeError "Operand must be number."), fresh)
  /\ run (UnaryExpression "+" (StringLiteral "a")) = (Normal (VString "a"), fresh).
Proof.
  pose proof (unary_operand bare_host 29 (StringLiteral "a") fresh (VString "a") fresh
                eq_refl) as W.
  cbv zeta in W. destruct W as (_ & W1 & W2 & _). split; [exact (W1 eq_refl) | exact W2].
Defined.

(** [1 % 2] throws the plain Error on the operator. *)
Lemma unknown_operator_witness :
  run (BinaryExpression "%" (NumericLiteral 1) (NumericLiteral 2))
  = (Throw (Error "Runtime: Unknown Binary operation"), fresh).
Proof.
  apply (unknown_operator bare_host 29 "%" (NumericLiteral 1) (NumericLiteral 2)
           fresh fresh fresh (VNumber 1) (VNumber 2) eq_refl eq_refl).
  simpl. intros Hop. repeat (destruct Hop as [Hop | Hop]; [discriminate Hop |]). exact Hop.
Defined.


(** ** The general properties on sample programs *)

(** [for (Banao i = 0; ; ) 1 - "a";] evaluates its initializer and nothing
    else: the body, which would throw, is not evaluated. *)
Lemma for_without_test_witness :
  visit bare_host 30
    (Some (ForStatement (Some (VariableStatement [("i", Some (NumericLiteral 0))]))
             None None one_minus_a)) fresh
  = (do _ <- visit bare_host 29 (Some (VariableStatement [("i", Some (NumericLiteral 0))]));
     ret VNull) fresh.
Proof.
  apply (for_without_test bare_host 28). discriminate.
Defined.


(** [1 == 2 && 1 - "a"] throws what its right operand throws. *)
Lemma logical_right_operand_throws_witness :
  run (LogicalExpression "&&" one_equals_two one_minus_a)
  = (Throw (RuntimeError "Operands must be numbers."), fresh).
Proof.
  exact (logical_right_operand_throws bare_host 29 "&&" one_equals_two one_minus_a
           fresh fresh fresh (VBoolean false) _ eq_refl eq_refl).
Defined.

(** * Tokens *)

(** ** What the rules match *)

Lemma lit_positive c l : Tokenizer.positive (Tokenizer.lit (String c l)).
Proof.
  intros s n. unfold Tokenizer.lit. destruct (String.prefix _ s); intros [= <-]. simpl. lia.
Qed.

Lemma keyword_positive c kw : Tokenizer.positive (Tokenizer.keyword (String c kw)).
Proof.
  intros s n. unfold Tokenizer.keyword. destruct (String.prefix _ s); [| discriminate].
  destruct (Str.slice _ s) as [| d r]; [| destruct (Str.is_word d)];
    intros [= <-]; simpl; lia.
Qed.

Lemma one_of_positive set : Tokenizer.positive (Tokenizer.one_of set).
Proof.
  intros [| c s] n; simpl; [discriminate |].
  destruct (existsb _ _); intros [= <-]. lia.
Qed.

Lemma one_of_then_eq_positive set : Tokenizer.positive (Tokenizer.one_of_then_eq set).
Proof.
  intros s n. unfold Tokenizer.one_of_then_eq.
  destruct (Tokenizer.one_of set s); [| discriminate].
  destruct (Str.slice 1 s) as [| d r]; [discriminate |].
  destruct d as [[] [] [] [] [] [] [] []]; intros E; inversion E; lia.
Qed.

Lemma relational_positive : Tokenizer.positive Tokenizer.relational.
Proof.
  intros s n. unfold Tokenizer.relational.
  destruct (Tokenizer.one_of "><" s); [| discriminate].
  destruct (Str.slice 1 s) as [| d r]; [intros [= <-]; lia |].
  destruct d as [[] [] [] [] [] [] [] []]; intros E; inversion E; lia.
Qed.

Lemma quoted_positive q : Tokenizer.positive (Tokenizer.quoted q).
Proof.
  intros [| c s] n; simpl; [discriminate |].
  destruct (Ascii.eqb c q); [| discriminate].
  destruct (Str.slice _ s) as [| c' r]; [discriminate |].
  destruct (Ascii.eqb c' q); intros [= <-]. lia.
Qed.

(** No rule of the table matches the empty text. *)
Lemma spec_positive : Forall (fun rule => Tokenizer.positive (fst rule)) Tokenizer.spec.
Proof.
  unfold Tokenizer.spec.
  repeat (apply Forall_cons; split;
          [first [ intros s n; apply many1_positive | apply lit_positive
                 | apply keyword_positive | apply one_of_positive
                 | apply one_of_then_eq_positive | apply relational_positive
                 | intros s n; apply line_comment_positive
                 | intros s n; apply block_comment_positive | apply quoted_positive ] |]).
  apply Forall_nil. exact I.
Qed.

Lemma first_match_positive rules s tk tokenValue ty tk' :
  Forall (fun rule => Tokenizer.bounded (fst rule)) rules ->
  Forall (fun rule => Tokenizer.positive (fst rule)) rules ->
  Tokenizer.first_match rules s tk = Some (tokenValue, ty, tk') ->
  (1 <= String.length tokenValue)%nat.
Proof.
  induction 1 as [| [p t] rest Hb _ IH]; simpl; [discriminate |].
  intros Hpos. apply Forall_cons in Hpos. destruct Hpos as [Hp Hrest].
  destruct (Tokenizer._match p s tk) as [[m |] tk1] eqn:Hm; [| apply IH, Hrest].
  intros [= <- <- <-].
  destruct (_match_Some _ _ _ _ _ Hb Hm) as (n & Hn & _ & Hl & _).
  rewrite Hl. apply (Hp _ _ Hn).
Qed.

(** ** What a call of [getNextToken] did *)

(** When it answers a token, it skipped text up to an offset [from] short of
    the end, where the first rule that matches is the one of the token's
    type, and matched the token's text. *)
Lemma getNextToken_fuel_Tok fuel :
  forall tk tok tk',
  Tokenizer.getNextToken_fuel fuel tk = Some (Tokenizer.Tok tok, tk') ->
  exists from,
    (Tokenizer.cursor tk <= from)%nat
    /\ (from < String.length (Tokenizer.string_ tk))%nat
    /\ Tokenizer.first_match Tokenizer.spec (Str.slice from (Tokenizer.string_ tk))
         (Tokenizer.mk (Tokenizer.string_ tk) from)
       = Some (Tokenizer.value tok, Some (Tokenizer.type tok), tk')
    /\ Tokenizer.start tok = (Z.of_nat from - 1)%Z
    /\ Tokenizer.end_ tok = Z.of_nat (Tokenizer.cursor tk').
Proof.
  induction fuel as [| fuel IH]; intros tk tok tk' Hg; [discriminate |].
  cbn [Tokenizer.getNextToken_fuel] in Hg.
  destruct (negb (Tokenizer.hasMoreTokens tk) || Tokenizer.isEOF tk) eqn:Hend;
    [discriminate |].
  apply orb_false_iff in Hend. destruct Hend as [Hmore _].
  apply negb_false_iff, Nat.ltb_lt in Hmore.
  destruct (Tokenizer.first_match Tokenizer.spec _ tk) as [[[v [ty |]] tk1] |] eqn:Hm;
    [| | discriminate].
  - destruct (first_match_Some _ _ _ _ _ _ spec_bounded Hm) as (_ & _ & Hk).
    inversion Hg; subst tok tk'. clear Hg.
    exists (Tokenizer.cursor tk). destruct tk as [str cur].
    cbn [Tokenizer.string_ Tokenizer.cursor Tokenizer.value Tokenizer.type
         Tokenizer.start Tokenizer.end_] in *.
    split_and!; [lia | exact Hmore | exact Hm | | reflexivity].
    rewrite Hk. cbn [Tokenizer.cursor]. lia.
  - destruct (first_match_Some _ _ _ _ _ _ spec_bounded Hm) as (_ & _ & ->).
    destruct (IH _ _ _ Hg) as (from & Hle & Hlt & Hf & Hs & He).
    cbn [Tokenizer.string_ Tokenizer.cursor] in *.
    exists from. split_and!; [lia | exact Hlt | exact Hf | exact Hs | exact He].
Qed.

(** When it answers null or throws, it skipped text up to where it stopped,
    and a further call from there answers the same. *)
Lemma getNextToken_fuel_end fuel :
  forall tk o tk',
  Tokenizer.getNextToken_fuel fuel tk = Some (o, tk') ->
  match o with
  | Tokenizer.Tok _ => True
  | Tokenizer.Null =>
      Tokenizer.string_ tk' = Tokenizer.string_ tk
      /\ (Tokenizer.cursor tk <= Tokenizer.cursor tk')%nat
      /\ (String.length (Tokenizer.string_ tk) <= Tokenizer.cursor tk')%nat
      /\ forall fuel', Tokenizer.getNextToken_fuel (S fuel') tk' = Some (o, tk')
  | Tokenizer.SyntaxError _ loc_start loc_end =>
      Tokenizer.string_ tk' = Tokenizer.string_ tk
      /\ (Tokenizer.cursor tk <= Tokenizer.cursor tk')%nat
      /\ loc_start = Tokenizer.cursor tk' /\ loc_end = S loc_start
      /\ (loc_start < String.length (Tokenizer.string_ tk))%nat
      /\ forall fuel', Tokenizer.getNextToken_fuel (S fuel') tk' = Some (o, tk')
  end.
Proof.
  induction fuel as [| fuel IH]; intros tk o tk' Hg; [discriminate |].
  cbn [Tokenizer.getNextToken_fuel] in Hg.
  destruct (negb (Tokenizer.hasMoreTokens tk) || Tokenizer.isEOF tk) eqn:Hend.
  - inversion Hg; subst o tk'. split_and!; [reflexivity | lia | |].
    + apply orb_true_iff in Hend. destruct Hend as [Hmore | Heof].
      * apply negb_true_iff, Nat.ltb_ge in Hmore. exact Hmore.
      * apply Nat.eqb_eq in Heof. unfold Tokenizer.isEOF in Heof. lia.
    + intros fuel'. cbn [Tokenizer.getNextToken_fuel]. rewrite Hend. reflexivity.
  - destruct (Tokenizer.first_match Tokenizer.spec _ tk) as [[[v [ty |]] tk1] |] eqn:Hm.
    + inversion Hg; subst o. exact I.
    + destruct (first_match_Some _ _ _ _ _ _ spec_bounded Hm) as (_ & _ & ->).
      specialize (IH _ _ _ Hg). cbn [Tokenizer.string_ Tokenizer.cursor] in IH.
      destruct o as [| tok | u a b]; [| exact I |].
      * destruct IH as (Hs & Hc & Hl & Hagain). split_and!; [exact Hs | lia | exact Hl | exact Hagain].
      * destruct IH as (Hs & Hc & Ha & Hb & Hl & Hagain).
        split_and!; [exact Hs | lia | exact Ha | exact Hb | exact Hl | exact Hagain].
    + inversion Hg; subst o tk'.
      pose proof Hend as Hend'.
      apply orb_false_iff in Hend'. destruct Hend' as [Hmore _].
      apply negb_false_iff, Nat.ltb_lt in Hmore.
      split_and!; [reflexivity | lia | reflexivity | lia | exact Hmore |].
      intros fuel'. cbn [Tokenizer.getNextToken_fuel]. rewrite Hend, Hm. reflexivity.
Qed.

(** Where a token lies: after the cursor the call started from and within
    the text, with the cursor left at its end. *)
Lemma token_bounds tk tok tk' :
  Tokenizer.getNextToken tk = Some (Tokenizer.Tok tok, tk') ->
  Tokenizer.string_ tk' = Tokenizer.string_ tk
  /\ Tokenizer.end_ tok = Z.of_nat (Tokenizer.cursor tk')
  /\ (Z.of_nat (Tokenizer.cursor tk) <= Tokenizer.start tok + 1 < Tokenizer.end_ tok)%Z
  /\ (Tokenizer.end_ tok <= Z.of_nat (String.length (Tokenizer.string_ tk)))%Z.
Proof.
  intros Hg. unfold Tokenizer.getNextToken in Hg.
  destruct (getNextToken_fuel_Tok _ _ _ _ Hg) as (from & Hle & Hlt & Hm & Hs & He).
  destruct (first_match_Some _ _ _ _ _ _ spec_bounded Hm) as (Hv & Hlen & Hk).
  pose proof (first_match_positive _ _ _ _ _ _ spec_bounded spec_positive Hm) as Hpos.
  rewrite slice_length in Hlen.
  rewrite Hk in He |- *. cbn [Tokenizer.string_ Tokenizer.cursor] in *.
  split_and!; [reflexivity | exact He | lia | lia | lia].
Qed.

(** X2: every token lies in the source, after the cursor the call started
    from. Its text is not empty; it is the part of the source that ends at
    the token's end, where the cursor is left, and starts one after the
    token's start: [start] lies one before the offset at which the text
    starts. *)
Theorem token_lies_in_source tk tok tk' :
  Tokenizer.getNextToken tk = Some (Tokenizer.Tok tok, tk') ->
  Tokenizer.string_ tk' = Tokenizer.string_ tk
  /\ Tokenizer.end_ tok = Z.of_nat (Tokenizer.cursor tk')
  /\ (Z.of_nat (Tokenizer.cursor tk) <= Tokenizer.start tok + 1 < Tokenizer.end_ tok)%Z
  /\ (Tokenizer.end_ tok <= Z.of_nat (String.length (Tokenizer.string_ tk)))%Z
  /\ Tokenizer.value tok
     = Str.substring (Z.to_nat (Tokenizer.start tok + 1)) (Z.to_nat (Tokenizer.end_ tok))
                     (Tokenizer.string_ tk).
Proof.
  intros Hg. destruct (token_bounds _ _ _ Hg) as (Hs & He & Hb & Hb').
  split_and!; [exact Hs | exact He | apply Hb | apply Hb | exact Hb' |].
  unfold Tokenizer.getNextToken in Hg. apply (token_text _ _ _ _ Hg).
Qed.

(** X3: the tokens of a text come in the order of the text and do not
    overlap: each one ends before the text of any later one starts, and all
    of them lie in the source, after the cursor the tokenizer started
    from. *)
Theorem tokens_in_order n :
  forall tk,
  StronglySorted (fun a b => (Tokenizer.end_ a <= Tokenizer.start b + 1)%Z)
                 (Tokenizer.tokens n tk)
  /\ Forall (fun a => (Z.of_nat (Tokenizer.cursor tk) <= Tokenizer.start a + 1
                       < Tokenizer.end_ a)%Z
                      /\ (Tokenizer.end_ a
                          <= Z.of_nat (String.length (Tokenizer.string_ tk)))%Z)
            (Tokenizer.tokens n tk).
Proof.
  induction n as [| n IH]; intros tk; cbn [Tokenizer.tokens].
  - split; constructor.
  - destruct (Tokenizer.getNextToken tk) as [[[| tok | u a b] tk'] |] eqn:Hg;
      try (split; constructor).
    + apply IH.
    + destruct (IH tk') as [Hsorted Hall].
      destruct (token_bounds _ _ _ Hg) as (Hs & He & Hb & Hb').
      rewrite Hs, <- He in Hall.
      eapply Forall_impl; [exact Hall |]. cbv beta. intros b ?. lia.
    + destruct (token_bounds _ _ _ Hg) as (Hs & He & Hb & Hb').
      split; assumption.
    + destruct (IH tk') as [_ Hall].
      destruct (token_bounds _ _ _ Hg) as (Hs & He & Hb & Hb').
      rewrite Hs, <- He in Hall.
      eapply Forall_impl; [exact Hall |]. cbv beta. intros b ?. lia.
Qed.

(** X4: once [getNextToken] has answered null or thrown, it answers the same
    on every further call. It answers null only with the cursor at the end of
    the text; it throws with the cursor on the character that starts no
    token, which is the one the error reports, and leaves the cursor
    there. *)
Theorem getNextToken_end_is_final tk o tk' :
  Tokenizer.getNextToken tk = Some (o, tk') ->
  match o with
  | Tokenizer.Tok _ => True
  | Tokenizer.Null =>
      Tokenizer.getNextToken tk' = Some (o, tk')
      /\ (String.length (Tokenizer.string_ tk') <= Tokenizer.cursor tk')%nat
  | Tokenizer.SyntaxError _ loc_start loc_end =>
      Tokenizer.getNextToken tk' = Some (o, tk')
      /\ loc_start = Tokenizer.cursor tk' /\ loc_end = S loc_start
      /\ (loc_start < String.length (Tokenizer.string_ tk'))%nat
  end.
Proof.
  intros Hg. unfold Tokenizer.getNextToken in *.
  pose proof (getNextToken_fuel_end _ _ _ _ Hg) as Hend.
  destruct o as [| tok | u a b]; [| exact I |].
  - destruct Hend as (Hs & _ & Hl & Hagain). rewrite Hs. split; [apply Hagain | exact Hl].
  - destruct Hend as (Hs & _ & Ha & Hb & Hl & Hagain). rewrite Hs.
    split_and!; [apply Hagain | exact Ha | exact Hb | exact Hl].
Qed.

(** ** The text of identifiers, numbers and strings *)

Lemma _match_None regex s tk tk' :
  Tokenizer._match regex s tk = (None, tk') -> regex s = None.
Proof.
  unfold Tokenizer._match, Tokenizer.exec.
  destruct (regex s); simpl; [discriminate | reflexivity].
Qed.

(** Goes through the rule table rule by rule, as [getNextToken] does, and
    keeps the cases in which the rule that matched can have given the token
    of [Hm]. *)
Ltac rule_by_rule Hm :=
  unfold Tokenizer.spec in Hm; cbn [Tokenizer.first_match] in Hm;
  repeat match type of Hm with
         | context [match Tokenizer._match ?p ?s ?tk with _ => _ end] =>
             let E := fresh "E" in
             destruct (Tokenizer._match p s tk) as [[? |] ?] eqn:E;
             [try discriminate Hm |]
         end;
  try discriminate Hm.

Lemma spec_IDENTIFIER s tk v tk' :
  Tokenizer.first_match Tokenizer.spec s tk = Some (v, Some Tokenizer.IDENTIFIER, tk') ->
  Forall (fun kw => Tokenizer.keyword kw s = None) Tokenizer.reserved
  /\ Tokenizer.many1 Str.is_digit s = None
  /\ exists n, Tokenizer.many1 Str.is_word s = Some n /\ v = Str.take n s.
Proof.
  intros Hm. rule_by_rule Hm.
  inversion Hm; subst.
  split_and!.
  - unfold Tokenizer.reserved. repeat (constructor; [eapply _match_None; eassumption |]).
    constructor.
  - eapply _match_None; eassumption.
  - match goal with
    | E : Tokenizer._match (Tokenizer.many1 Str.is_word) _ _ = (Some _, _) |- _ =>
        destruct (_match_Some _ _ _ _ _ (many1_bounded _) E) as (n & Hn & Hv & _)
    end.
    eauto.
Qed.

Lemma spec_NUMBER s tk v tk' :
  Tokenizer.first_match Tokenizer.spec s tk = Some (v, Some Tokenizer.NUMBER, tk') ->
  exists n, Tokenizer.many1 Str.is_digit s = Some n /\ v = Str.take n s.
Proof.
  intros Hm. rule_by_rule Hm.
  inversion Hm; subst.
  match goal with
  | E : Tokenizer._match (Tokenizer.many1 Str.is_digit) _ _ = (Some _, _) |- _ =>
      destruct (_match_Some _ _ _ _ _ (many1_bounded _) E) as (n & Hn & Hv & _)
  end.
  eauto.
Qed.

Lemma spec_STRING s tk v tk' :
  Tokenizer.first_match Tokenizer.spec s tk = Some (v, Some Tokenizer.STRING, tk') ->
  exists q n, (q = Str.dquote \/ q = Str.squote)
              /\ Tokenizer.quoted q s = Some n /\ v = Str.take n s.
Proof.
  intros Hm. rule_by_rule Hm; inversion Hm; subst.
  - match goal with
    | E : Tokenizer._match (Tokenizer.quoted Str.dquote) _ _ = (Some _, _) |- _ =>
        destruct (_match_Some _ _ _ _ _ (quoted_bounded _) E) as (n & Hn & Hv & _)
    end.
    exists Str.dquote, n. auto.
  - match goal with
    | E : Tokenizer._match (Tokenizer.quoted Str.squote) _ _ = (Some _, _) |- _ =>
        destruct (_match_Some _ _ _ _ _ (quoted_bounded _) E) as (n & Hn & Hv & _)
    end.
    exists Str.squote, n. auto.
Qed.

(** The longest prefix whose characters satisfy [p] consists of such
    characters, and what follows it starts with another one. *)
Lemma take_span_all p : forall s,
  forallb p (list_ascii_of_string (Str.take (Tokenizer.span p s) s)) = true.
Proof.
  induction s as [| c s IH]; simpl; [reflexivity |].
  destruct (p c) eqn:Hc; simpl; [rewrite Hc; exact IH | reflexivity].
Qed.

Lemma span_stop p : forall s,
  match Str.slice (Tokenizer.span p s) s with
  | String c _ => p c = false
  | EmptyString => True
  end.
Proof.
  induction s as [| c s IH]; simpl; [exact I |].
  destruct (p c) eqn:Hc; simpl; [exact IH | exact Hc].
Qed.

Lemma prefix_take n : forall s, String.prefix (Str.take n s) s = true.
Proof.
  induction n as [| n IH]; intros [| c s]; simpl; try reflexivity.
  destruct (ascii_dec c c) as [_ | Hne]; [apply IH | contradiction].
Qed.

Lemma slice_slice n : forall m s, Str.slice m (Str.slice n s) = Str.slice (n + m) s.
Proof.
  induction n as [| n IH]; intros m s; [reflexivity |].
  destruct s as [| c s]; simpl; [destruct m; reflexivity | apply IH].
Qed.

(** A run of word characters that is followed by no word character is
    matched by the rule of the keyword it spells. *)
Lemma keyword_of_word_run s :
  Tokenizer.keyword (Str.take (Tokenizer.span Str.is_word s) s) s
  = Some (Tokenizer.span Str.is_word s).
Proof.
  unfold Tokenizer.keyword. rewrite prefix_take.
  rewrite take_length by apply span_length.
  pose proof (span_stop Str.is_word s) as Hstop.
  destruct (Str.slice _ s) as [| c r]; [reflexivity |]. rewrite Hstop. reflexivity.
Qed.

Lemma many1_span p s n : Tokenizer.many1 p s = Some n -> n = Tokenizer.span p s.
Proof.
  unfold Tokenizer.many1. destruct (Tokenizer.span p s); intros E; inversion E. reflexivity.
Qed.

(** X5: the text of an identifier token consists of word characters, does
    not start with a digit and is none of the keywords. *)
Theorem identifier_is_no_keyword tk tok tk' :
  Tokenizer.getNextToken tk = Some (Tokenizer.Tok tok, tk') ->
  Tokenizer.type tok = Tokenizer.IDENTIFIER ->
  forallb Str.is_word (list_ascii_of_string (Tokenizer.value tok)) = true
  /\ (exists c rest, Tokenizer.value tok = String c rest /\ Str.is_digit c = false)
  /\ ~ In (Tokenizer.value tok) Tokenizer.reserved.
Proof.
  intros Hg Hty. unfold Tokenizer.getNextToken in Hg.
  destruct (getNextToken_fuel_Tok _ _ _ _ Hg) as (from & _ & _ & Hm & _).
  rewrite Hty in Hm. apply spec_IDENTIFIER in Hm.
  destruct Hm as (Hkw & Hdigit & n & Hn & Hv).
  pose proof (many1_span _ _ _ Hn) as ->.
  set (s := Str.slice from (Tokenizer.string_ tk)) in *.
  split_and!.
  - rewrite Hv. apply take_span_all.
  - unfold Tokenizer.many1 in Hdigit, Hn. rewrite Hv. clear Hg Hkw Hv.
    destruct s as [| c r]; [discriminate Hn |].
    cbn [Tokenizer.span] in *.
    destruct (Str.is_word c); [| discriminate Hn].
    destruct (Str.is_digit c) eqn:Hc; [discriminate Hdigit |].
    cbn [Str.take]. eauto.
  - intros Hin. rewrite Forall_forall in Hkw. apply list_elem_of_In in Hin.
    specialize (Hkw _ Hin).
    rewrite Hv, keyword_of_word_run in Hkw. discriminate Hkw.
Qed.

(** X6: the text of a number token is a run of digits, as long as it can be:
    it is not empty, and the character that follows it in the source is no
    digit. *)
Theorem number_is_longest_run_of_digits tk tok tk' :
  Tokenizer.getNextToken tk = Some (Tokenizer.Tok tok, tk') ->
  Tokenizer.type tok = Tokenizer.NUMBER ->
  Tokenizer.value tok <> EmptyString
  /\ forallb Str.is_digit (list_ascii_of_string (Tokenizer.value tok)) = true
  /\ match Str.slice (Tokenizer.cursor tk') (Tokenizer.string_ tk) with
     | String c _ => Str.is_digit c = false
     | EmptyString => True
     end.
Proof.
  intros Hg Hty. unfold Tokenizer.getNextToken in Hg.
  destruct (getNextToken_fuel_Tok _ _ _ _ Hg) as (from & _ & _ & Hm & _).
  destruct (first_match_Some _ _ _ _ _ _ spec_bounded Hm) as (_ & Hlen & Hk).
  rewrite Hty in Hm. apply spec_NUMBER in Hm. destruct Hm as (n & Hn & Hv).
  pose proof (many1_positive _ _ _ Hn) as Hpos.
  pose proof (many1_span _ _ _ Hn) as ->.
  set (s := Str.slice from (Tokenizer.string_ tk)) in *.
  assert (Hl : String.length (Tokenizer.value tok) = Tokenizer.span Str.is_digit s).
  { rewrite Hv. apply take_length, span_length. }
  split_and!.
  - intros E. rewrite E in Hl. simpl in Hl. lia.
  - rewrite Hv. apply take_span_all.
  - rewrite Hk. cbn [Tokenizer.cursor]. rewrite Hl, <- slice_slice.
    apply span_stop.
Qed.

Lemma take_S_slice n : forall s c r,
  Str.slice n s = String c r -> Str.take (S n) s = Str.take n s ++ String c EmptyString.
Proof.
  induction n as [| n IH]; intros [| a s] c r Hs; simpl in Hs; try discriminate.
  - inversion Hs; subst. reflexivity.
  - change (Str.take (S (S n)) (String a s)) with (String a (Str.take (S n) s)).
    rewrite (IH _ _ _ Hs). reflexivity.
Qed.

(** X7: the text of a string token starts and ends with the same quote, and
    holds neither that quote nor a line feed in between: the quotes are part
    of the text, and there is no way to escape them. *)
Theorem string_is_quoted tk tok tk' :
  Tokenizer.getNextToken tk = Some (Tokenizer.Tok tok, tk') ->
  Tokenizer.type tok = Tokenizer.STRING ->
  exists q body,
    (q = Str.dquote \/ q = Str.squote)
    /\ Tokenizer.value tok = String q (body ++ String q EmptyString)
    /\ forallb (fun c => negb (Ascii.eqb c q || Ascii.eqb c Str.newline))
               (list_ascii_of_string body) = true.
Proof.
  intros Hg Hty. unfold Tokenizer.getNextToken in Hg.
  destruct (getNextToken_fuel_Tok _ _ _ _ Hg) as (from & _ & _ & Hm & _).
  rewrite Hty in Hm. apply spec_STRING in Hm. destruct Hm as (q & n & Hq & Hn & Hv).
  set (s := Str.slice from (Tokenizer.string_ tk)) in *.
  unfold Tokenizer.quoted in Hn. destruct s as [| c s']; [discriminate Hn |].
  destruct (Ascii.eqb c q) eqn:Hc; [| discriminate Hn].
  apply Ascii.eqb_eq in Hc. subst c.
  set (p := fun c => negb (Ascii.eqb c q || Ascii.eqb c Str.newline)) in *.
  destruct (Str.slice (Tokenizer.span p s') s') as [| c' r] eqn:Hs; [discriminate Hn |].
  destruct (Ascii.eqb c' q) eqn:Hc'; [| discriminate Hn].
  apply Ascii.eqb_eq in Hc'. subst c'. inversion Hn; subst n.
  exists q, (Str.take (Tokenizer.span p s') s'). split_and!.
  - exact Hq.
  - rewrite Hv. change (Str.take (S (S (Tokenizer.span p s'))) (String q s'))
      with (String q (Str.take (S (Tokenizer.span p s')) s')).
    rewrite (take_S_slice _ _ _ _ Hs). reflexivity.
  - apply take_span_all.
Qed.

(** ** Names of token types *)

Lemma own_In key object v : Tokenizer.own key object = Some v -> In v (map snd object).
Proof.
  induction object as [| [k w] rest IH]; simpl; [discriminate |].
  destruct (String.eqb key k); [intros [= ->]; auto | auto].
Qed.

(** X8: [tokenTypeToName] names every token type by a text that is not
    empty, and tells the token types apart: two of them never have the same
    name, so that two lists of token types with the same names are the same.
    A name is never itself renamed. *)
Theorem tokenTypeToName_tells_token_types_apart :
  (forall ty, exists s,
      Tokenizer.tokenTypeToName (Tokenizer.TokenTypes_value ty) = Tokenizer.Text s
      /\ s <> EmptyString)
  /\ (forall a b,
        Tokenizer.tokenTypeToName (Tokenizer.TokenTypes_value a)
        = Tokenizer.tokenTypeToName (Tokenizer.TokenTypes_value b) -> a = b)
  /\ (forall a b,
        Tokenizer.tokenTypesToNames (map Tokenizer.TokenTypes_value a)
        = Tokenizer.tokenTypesToNames (map Tokenizer.TokenTypes_value b) -> a = b)
  /\ (forall type s,
        Tokenizer.tokenTypeToName type = Tokenizer.Text s ->
        Tokenizer.tokenTypeToName s = Tokenizer.Text s).
Proof.
  assert (Hinj : forall a b,
             Tokenizer.tokenTypeToName (Tokenizer.TokenTypes_value a)
             = Tokenizer.tokenTypeToName (Tokenizer.TokenTypes_value b) -> a = b).
  { intros a b. destruct a; vm_compute; destruct b; vm_compute;
      intros E; first [reflexivity | discriminate E]. }
  split_and!.
  - intros ty. destruct ty; vm_compute; eexists; (split; [reflexivity | discriminate]).
  - exact Hinj.
  - unfold Tokenizer.tokenTypesToNames.
    induction a as [| x a IH]; intros [| y b]; simpl; intros E; try discriminate E.
    + reflexivity.
    + inversion E as [[Ehd Etl]]. f_equal; [apply Hinj, Ehd | apply IH, Etl].
  - intros type s. unfold Tokenizer.tokenTypeToName at 1.
    destruct (Tokenizer.own type Tokenizer.nameMap) as [n |] eqn:Hown.
    + apply own_In in Hown. simpl in Hown.
      repeat (destruct Hown as [<- | Hown];
              [vm_compute; intros [= <-]; reflexivity |]).
      contradiction.
    + destruct (existsb (String.eqb type) Tokenizer.inherited) eqn:Hinh; [discriminate |].
      intros [= <-]. unfold Tokenizer.tokenTypeToName. rewrite Hown, Hinh. reflexivity.
Qed.

(** ** The properties on sample texts *)

(** The first token of [Banao x = 1;] is [Banao], from offset 0 to 5, and
    is given the start -1. *)
Lemma token_lies_in_source_witness :
  "Banao" = Str.substring 0 5 (Tokenizer.string_ (Tokenizer.init "Banao x = 1;")).
Proof.
  exact (proj2 (proj2 (proj2 (proj2
           (token_lies_in_source (Tokenizer.init "Banao x = 1;")
              (Tokenizer.mkToken Tokenizer.let_ "Banao" (-1) 5)
              (Tokenizer.mk (Tokenizer.string_ (Tokenizer.init "Banao x = 1;")) 5)
              ltac:(vm_compute; reflexivity)))))).
Defined.

(** At the end of [x] the tokenizer answers null, again and again; on [x #]
    it throws at offset 2, again and again. *)
Lemma getNextToken_end_is_final_witness :
  Tokenizer.getNextToken (Tokenizer.mk (Tokenizer.string_ (Tokenizer.init "x")) 2)
  = Some (Tokenizer.Null, Tokenizer.mk (Tokenizer.string_ (Tokenizer.init "x")) 2)
  /\ Tokenizer.getNextToken (Tokenizer.mk (Tokenizer.string_ (Tokenizer.init "x #")) 2)
     = Some (Tokenizer.SyntaxError false 2 3,
             Tokenizer.mk (Tokenizer.string_ (Tokenizer.init "x #")) 2).
Proof.
  split.
  - exact (proj1 (getNextToken_end_is_final
                    (Tokenizer.mk (Tokenizer.string_ (Tokenizer.init "x")) 1)
                    Tokenizer.Null
                    (Tokenizer.mk (Tokenizer.string_ (Tokenizer.init "x")) 2)
                    ltac:(vm_compute; reflexivity))).
  - exact (proj1 (getNextToken_end_is_final
                    (Tokenizer.mk (Tokenizer.string_ (Tokenizer.init "x #")) 1)
                    (Tokenizer.SyntaxError false 2 3)
                    (Tokenizer.mk (Tokenizer.string_ (Tokenizer.init "x #")) 2)
                    ltac:(vm_compute; reflexivity))).
Defined.

(** [Banaoo] is an identifier, and no keyword. *)
Lemma identifier_is_no_keyword_witness :
  ~ In "Banaoo" Tokenizer.reserved.
Proof.
  exact (proj2 (proj2 (identifier_is_no_keyword (Tokenizer.init "Banaoo = 1;")
                         (Tokenizer.mkToken Tokenizer.IDENTIFIER "Banaoo" (-1) 6)
                         (Tokenizer.mk (Tokenizer.string_ (Tokenizer.init "Banaoo = 1;")) 6)
                         ltac:(vm_compute; reflexivity) eq_refl))).
Defined.

(** In [12ab] the number token is [12], followed by [a]. *)
Lemma number_is_longest_run_of_digits_witness :
  Str.slice 2 (Tokenizer.string_ (Tokenizer.init "12ab"))
  = String "a" (String "b" (String Str.newline EmptyString))
  /\ Str.is_digit "a" = false.
Proof.
  split; [reflexivity |].
  exact (proj2 (proj2 (number_is_longest_run_of_digits (Tokenizer.init "12ab")
                         (Tokenizer.mkToken Tokenizer.NUMBER "12" (-1) 2)
                         (Tokenizer.mk (Tokenizer.string_ (Tokenizer.init "12ab")) 2)
                         ltac:(vm_compute; reflexivity) eq_refl))).
Defined.

(** The string token of ['a b'] holds its quotes. *)
Lemma string_is_quoted_witness :
  exists q body,
    (q = Str.dquote \/ q = Str.squote)
    /\ String Str.squote (String "a" (String " " (String "b" (String Str.squote EmptyString))))
       = String q (body ++ String q EmptyString)
    /\ forallb (fun c => negb (Ascii.eqb c q || Ascii.eqb c Str.newline))
               (list_ascii_of_string body) = true.
Proof.
  exact (string_is_quoted (Tokenizer.init "'a b'")
           (Tokenizer.mkToken Tokenizer.STRING
              (String Str.squote (String "a" (String " " (String "b"
                 (String Str.squote EmptyString))))) (-1) 5)
           (Tokenizer.mk (Tokenizer.string_ (Tokenizer.init "'a b'")) 5)
           ltac:(vm_compute; reflexivity) eq_refl).
Defined.

(** ** The text of the other tokens *)

Lemma prefix_take_eq l : forall s,
  String.prefix l s = true -> Str.take (String.length l) s = l.
Proof.
  induction l as [| a l IH]; intros [| c s]; simpl; intros Hp;
    try reflexivity; try discriminate.
  destruct (ascii_dec a c) as [-> |]; [| discriminate]. f_equal. apply IH, Hp.
Qed.

Lemma _match_lit l s tk m tk' :
  Tokenizer._match (Tokenizer.lit l) s tk = (Some m, tk') -> m = l.
Proof.
  unfold Tokenizer._match, Tokenizer.exec, Tokenizer.lit.
  destruct (String.prefix l s) eqn:Hp; simpl; [| discriminate].
  intros [= <- _]. apply prefix_take_eq, Hp.
Qed.

Lemma _match_keyword kw s tk m tk' :
  Tokenizer._match (Tokenizer.keyword kw) s tk = (Some m, tk') -> m = kw.
Proof.
  unfold Tokenizer._match, Tokenizer.exec, Tokenizer.keyword.
  destruct (String.prefix kw s) eqn:Hp; simpl; [| discriminate].
  destruct (Str.slice _ s) as [| c r]; [| destruct (Str.is_word c)]; simpl;
    try discriminate; intros [= <- _]; apply prefix_take_eq, Hp.
Qed.

Lemma one_of_In set s n :
  Tokenizer.one_of set s = Some n ->
  exists c r, s = String c r /\ In c (list_ascii_of_string set) /\ n = 1%nat.
Proof.
  destruct s as [| c r]; simpl; [discriminate |].
  destruct (existsb _ _) eqn:He; intros [= <-].
  apply existsb_exists in He. destruct He as (x & Hx & Hc).
  apply Ascii.eqb_eq in Hc. subst x. eauto.
Qed.

Lemma _match_one_of set s tk m tk' :
  Tokenizer._match (Tokenizer.one_of set) s tk = (Some m, tk') ->
  exists c, In c (list_ascii_of_string set) /\ m = String c EmptyString.
Proof.
  unfold Tokenizer._match, Tokenizer.exec.
  destruct (Tokenizer.one_of set s) as [n |] eqn:Hn; simpl; [| discriminate].
  destruct (one_of_In _ _ _ Hn) as (c & r & -> & Hc & ->). intros [= <- _].
  exists c. split; [exact Hc | reflexivity].
Qed.

Lemma _match_one_of_then_eq set s tk m tk' :
  Tokenizer._match (Tokenizer.one_of_then_eq set) s tk = (Some m, tk') ->
  exists c, In c (list_ascii_of_string set) /\ m = String c (String "=" EmptyString).
Proof.
  unfold Tokenizer._match, Tokenizer.exec, Tokenizer.one_of_then_eq.
  destruct (Tokenizer.one_of set s) as [n |] eqn:Hn; [| discriminate].
  destruct (one_of_In _ _ _ Hn) as (c & r & -> & Hc & ->).
  cbn [Str.slice]. destruct r as [| d r]; [discriminate |].
  destruct d as [[] [] [] [] [] [] [] []]; simpl; try discriminate.
  intros [= <- _]. exists c. split; [exact Hc | reflexivity].
Qed.

Lemma _match_relational s tk m tk' :
  Tokenizer._match Tokenizer.relational s tk = (Some m, tk') ->
  exists c, In c (list_ascii_of_string "><")
            /\ (m = String c EmptyString \/ m = String c (String "=" EmptyString)).
Proof.
  unfold Tokenizer._match, Tokenizer.exec, Tokenizer.relational.
  destruct (Tokenizer.one_of "><" s) as [n |] eqn:Hn; [| discriminate].
  destruct (one_of_In _ _ _ Hn) as (c & r & -> & Hc & ->).
  cbn [Str.slice]. destruct r as [| d r].
  - simpl. intros [= <- _]. exists c. split; [exact Hc | left; reflexivity].
  - destruct d as [[] [] [] [] [] [] [] []]; simpl; intros [= <- _];
      exists c; (split; [exact Hc | first [left; reflexivity | right; reflexivity]]).
Qed.

(** Settles the case of one rule of the table: the text [m] that the rule
    matched in [E] is one of the texts of its token type. *)
Ltac spelled E :=
  first
    [ apply _match_lit in E; subst; simpl; auto 10
    | apply _match_keyword in E; subst; simpl; auto 10
    | apply _match_one_of_then_eq in E; destruct E as (? & Hc & ->); simpl in Hc;
      decompose [or] Hc; subst; simpl; auto 10; contradiction
    | apply _match_one_of in E; destruct E as (? & Hc & ->); simpl in Hc;
      decompose [or] Hc; subst; simpl; auto 10; contradiction
    | apply _match_relational in E; destruct E as (? & Hc & Hm'); simpl in Hc;
      decompose [or] Hc; destruct Hm'; subst; simpl; auto 10; contradiction
    | simpl; auto 10 ].

Lemma spec_spelling s tk v ty tk' :
  Tokenizer.first_match Tokenizer.spec s tk = Some (v, Some ty, tk') ->
  In ty [Tokenizer.STRING; Tokenizer.NUMBER; Tokenizer.IDENTIFIER]
  \/ In v (Tokenizer.spellings ty).
Proof.
  intros Hm. unfold Tokenizer.spec in Hm. cbn [Tokenizer.first_match] in Hm.
  repeat match type of Hm with
         | context [match Tokenizer._match ?p ?s ?tk with _ => _ end] =>
             let E := fresh "E" in
             destruct (Tokenizer._match p s tk) as [[? |] ?] eqn:E;
             [first [discriminate Hm | inversion Hm; subst; clear Hm; spelled E] |]
         end.
  discriminate Hm.
Qed.

(** X30: the text of every token is one that the rules of its type match.
    A keyword token has the spelling of its keyword, a delimiter its
    character, and an operator token one of the operators of its class;
    identifiers, numbers and strings are the only tokens whose text is not
    one of a fixed few, and no token has the type [EOF]. *)
Theorem token_spelling tk tok tk' :
  Tokenizer.getNextToken tk = Some (Tokenizer.Tok tok, tk') ->
  In (Tokenizer.type tok) [Tokenizer.STRING; Tokenizer.NUMBER; Tokenizer.IDENTIFIER]
  \/ In (Tokenizer.value tok) (Tokenizer.spellings (Tokenizer.type tok)).
Proof.
  intros Hg. unfold Tokenizer.getNextToken in Hg.
  destruct (getNextToken_fuel_Tok _ _ _ _ Hg) as (from & _ & _ & Hm & _).
  eapply spec_spelling, Hm.
Qed.

(** The token [>=] of [a >= 1] is one of the relational operators. *)
Lemma token_spelling_witness :
  In ">=" (Tokenizer.spellings Tokenizer.RELATIONAL_OPERATOR).
Proof.
  destruct (token_spelling (Tokenizer.mk (Tokenizer.string_ (Tokenizer.init "a >= 1")) 1)
              (Tokenizer.mkToken Tokenizer.RELATIONAL_OPERATOR ">=" 1 4)
              (Tokenizer.mk (Tokenizer.string_ (Tokenizer.init "a >= 1")) 4)
              ltac:(vm_compute; reflexivity)) as [Hty | Hv].
  - simpl in Hty. decompose [or] Hty; try discriminate; contradiction.
  - exact Hv.
Defined.
